(** * Account confirmation (package [confirm]): a shallow embedding

    The Go package [confirm] gates a freshly registered account behind a
    random token.  This file embeds its four functions
    ([RandStringBytesMaskImpr], [beforeGet], [afterRegister],
    [confirmHandler], with [goConfirmEmail] and [confirmEmail]) and proves
    properties of them.

    Conventions.
    - Go [int] and [int64] values are [Z]; no operation of the package can
      overflow (indices count down from [n-1], the cache only shrinks).
    - Go [string]s are [string]s, a [[]byte] is a [list ascii].
    - [authboss.Attributes] ([map[string]interface{}]) is a
      [gmap string Value].
    - A function that reads or writes the request context, the storer, the
      session, the log or the random source is a state transformer over
      [World] that ends in an [Outcome]: a value, a Go [error], a run-time
      panic, or exhaustion of the fuel given to the one unbounded loop. *)

From Stdlib Require Import ZArith Ascii String Lia ZifyNat.
From stdpp Require Import gmap strings list fin_maps.

Local Open Scope Z_scope.

(** ** Values, errors and outcomes *)

(** The kinds of value a storer keeps ([authboss.DataType]). *)
Inductive DataType := TInteger | TString | TBool | TDateTime.

(** What an [interface{}] stored in [authboss.Attributes] may hold. *)
Inductive Value :=
| VInteger (n : Z)
| VString (s : string)
| VBool (b : bool)
| VDateTime (unix : Z).

Definition kind_of (v : Value) : DataType :=
  match v with
  | VInteger _ => TInteger
  | VString _ => TString
  | VBool _ => TBool
  | VDateTime _ => TDateTime
  end.

Global Instance DataType_eq_dec : EqDecision DataType.
Proof. solve_decision. Defined.

Global Instance Value_eq_dec : EqDecision Value.
Proof. solve_decision. Defined.

(** Go [error] values that travel through the package.  [ErrExternal] is
    any error a collaborator (storer, mailer, template renderer) reports
    other than the distinguished [ErrUserNotFound]. *)
Inductive Error :=
| errUserMissing
| ErrUserNotFound
| ClientDataErr (Name : string)
| AttributeErr (Name : string) (WantKind : DataType) (GotKind : option DataType)
| ErrAndRedirect (Location : string) (Err : string)
| ErrExternal (msg : string).

Global Instance Error_eq_dec : EqDecision Error.
Proof. solve_decision. Defined.

Inductive Outcome (St A : Type) :=
| Ok (a : A) (s : St)
| Err (e : Error) (s : St)
| Panic
| OutOfFuel.

Arguments Ok {St A} a s.
Arguments Err {St A} e s.
Arguments Panic {St A}.
Arguments OutOfFuel {St A}.

(** State-and-error monad: [M St A] is a computation over the state [St]. *)
Definition M (St A : Type) : Type := St → Outcome St A.

Global Instance M_ret {St} : MRet (M St) := fun A a s => Ok a s.

Definition throw {St A} (e : Error) : M St A := fun s => Err e s.

Definition panic {St A} : M St A := fun _ => Panic.

Global Instance M_bind {St} : MBind (M St) := fun A B k m s =>
  match m s with
  | Ok a s' => k a s'
  | Err e s' => Err e s'
  | Panic => Panic
  | OutOfFuel => OutOfFuel
  end.

(** ** The random source ([math/rand]) *)

(** The process-wide source: the sequence of values [rand.Int63] will
    return, and how many were taken.  [Int63] returns a non-negative 63-bit
    integer, whatever the sequence holds. *)
Record RandSource := { rs_draws : nat → Z; rs_pos : nat }.

Definition Int63_value (r : RandSource) (k : nat) : Z :=
  rs_draws r k mod 2 ^ 63.

Definition Int63 : M RandSource Z :=
  fun r => Ok (Int63_value r (rs_pos r))
              {| rs_draws := rs_draws r; rs_pos := S (rs_pos r) |}.

(** ** The token generator *)

Definition TokenLength : Z := 6.
Definition letterBytes : string :=
  "abcdefghijklmnopqrstuvwxyzABCDEFGHIJKLMNOPQRSTUVWXYZ".
Definition letterIdxBits : Z := 6.
Definition letterIdxMask : Z := Z.shiftl 1 letterIdxBits - 1.
Definition letterIdxMax : Z := 63 / letterIdxBits.

(** [len(s)] *)
Definition len (s : string) : Z := Z.of_nat (String.length s).

(** The variables of the loop of [RandStringBytesMaskImpr]. *)
Record LoopVars := {
  lv_i : Z;
  lv_cache : Z;
  lv_remain : Z;
  lv_b : list ascii
}.

(** [if remain == 0 { cache, remain = rand.Int63(), letterIdxMax }] *)
Definition refill (v : LoopVars) : M RandSource (Z * Z) :=
  if lv_remain v =? 0
  then x ← Int63; mret (x, letterIdxMax)
  else mret (lv_cache v, lv_remain v).

(** [int(cache & letterIdxMask)] *)
Definition letterIdx (cache : Z) : Z := Z.land cache letterIdxMask.

(** The guard [idx < len(letterBytes)]. *)
Definition accepted (idx : Z) : bool := idx <? len letterBytes.

(** One pass through the loop body.  An index outside the string or the
    buffer is a run-time panic in Go. *)
Definition loop_body (v : LoopVars) : M RandSource LoopVars :=
  '(cache, remain) ← refill v;
  let idx := letterIdx cache in
  if accepted idx then
    match String.get (Z.to_nat idx) letterBytes with
    | Some c =>
        if (0 <=? lv_i v) && (lv_i v <? Z.of_nat (length (lv_b v)))
        then mret {| lv_i := lv_i v - 1;
                    lv_cache := Z.shiftr cache letterIdxBits;
                    lv_remain := remain - 1;
                    lv_b := <[Z.to_nat (lv_i v) := c]> (lv_b v) |}
        else panic
    | None => panic
    end
  else mret {| lv_i := lv_i v;
              lv_cache := Z.shiftr cache letterIdxBits;
              lv_remain := remain - 1;
              lv_b := lv_b v |}.

(** [for ...; i >= 0; { body }], with the number of passes bounded by
    [fuel]. *)
Fixpoint loop (fuel : nat) (v : LoopVars) : M RandSource LoopVars :=
  match fuel with
  | O => fun _ => OutOfFuel
  | S fuel' =>
      if 0 <=? lv_i v
      then v' ← loop_body v; loop fuel' v'
      else mret v
  end.

(** [make([]byte, n)] panics on a negative length.  Memory is not bounded
    here: a length the runtime cannot allocate is not modelled. *)
Definition RandStringBytesMaskImpr (fuel : nat) (n : Z) : M RandSource string :=
  if n <? 0 then panic
  else
    let b := replicate (Z.to_nat n) zero in
    cache ← Int63;
    v ← loop fuel {| lv_i := n - 1; lv_cache := cache;
                     lv_remain := letterIdxMax; lv_b := b |};
    mret (string_of_list_ascii (lv_b v)).

(** The position of the buffer a pass of the loop assigns, when it assigns
    one: the pass executes [b[i] = letterBytes[idx]] exactly when the value
    is accepted. *)
Definition pass_write (v : LoopVars) (r : RandSource) : option Z :=
  match refill v r with
  | Ok (cache, _) _ =>
      if accepted (letterIdx cache) then Some (lv_i v) else None
  | _ => None
  end.



(** ** Strings *)

(** The functions of Go's standard library the package calls and that are
    left open: [path.Join], [url.QueryEscape], and the Unicode case mapping
    [strings.ToUpper] falls back to on a string that is not pure ASCII.  Of
    the mapping one fact is used: it works rune by rune and drops none, so
    it never empties a string. *)
Class GoLib := {
  path_Join : string → string → string;
  url_QueryEscape : string → string;
  unicode_ToUpper : string → string;
  unicode_ToUpper_nonempty : ∀ s, s ≠ "" → unicode_ToUpper s ≠ ""
}.

(** [c < utf8.RuneSelf] *)
Definition is_ascii_byte (c : ascii) : bool := (N_of_ascii c <? 128)%N.

(** ['a' <= c && c <= 'z'] *)
Definition is_lower (c : ascii) : bool :=
  ((97 <=? N_of_ascii c) && (N_of_ascii c <=? 122))%N.

(** ['A' <= c && c <= 'Z'] *)
Definition is_upper (c : ascii) : bool :=
  ((65 <=? N_of_ascii c) && (N_of_ascii c <=? 90))%N.

(** ['0' <= c && c <= '9'] *)
Definition is_digit (c : ascii) : bool :=
  ((48 <=? N_of_ascii c) && (N_of_ascii c <=? 57))%N.

(** [c -= 'a' - 'A'] on a lower-case letter, other bytes unchanged. *)
Definition upper_byte (c : ascii) : ascii :=
  if is_lower c then ascii_of_N (N_of_ascii c - 32) else c.

Fixpoint string_forallb (p : ascii → bool) (s : string) : bool :=
  match s with
  | EmptyString => true
  | String c s' => p c && string_forallb p s'
  end.

Fixpoint string_existsb (p : ascii → bool) (s : string) : bool :=
  match s with
  | EmptyString => false
  | String c s' => p c || string_existsb p s'
  end.

Fixpoint string_map (f : ascii → ascii) (s : string) : string :=
  match s with
  | EmptyString => EmptyString
  | String c s' => String (f c) (string_map f s')
  end.

(** [strings.ToUpper]: a pure-ASCII string is mapped byte by byte (and
    returned as it is when it has no lower-case letter); any other string
    goes through the Unicode mapping. *)
Definition ToUpper `{GoLib} (s : string) : string :=
  if string_forallb is_ascii_byte s then
    if string_existsb is_lower s then string_map upper_byte s else s
  else unicode_ToUpper s.

(** ** Accounts, configuration and the request context *)

(** Storer and FormValue constants *)
Definition StoreConfirmToken : string := "confirm_token".
Definition StoreConfirmed : string := "confirmed".
Definition FormValueConfirm : string := "cnf".
Definition tplConfirmHTML : string := "confirm_email.html.tpl".
Definition tplConfirmText : string := "confirm_email.txt.tpl".

(** Modelled from the spec: the constants [authboss.StoreEmail] and
    [authboss.SessionKey] are declared in the authboss package, outside this
    source; the account's delivery address is its [email] field. *)
Definition StoreEmail : string := "email".
Definition SessionKey : string := "uid".

(** Modelled from the spec: [authboss.Interrupt] is declared in the authboss
    package; the gate uses [InterruptNone] and
    [InterruptAccountNotConfirmed]. *)
Inductive Interrupt :=
| InterruptNone
| InterruptAccountLocked
| InterruptAccountNotConfirmed
| InterruptSessionExpired.

(** Modelled from the spec: [Attributes.BoolErr] is in the authboss package.
    It reads a field as a boolean and reports a field-access error when the
    field is absent or holds a value of another type.  Indexing a nil map
    finds nothing. *)
Definition BoolErr (a : option (gmap string Value)) (key : string) : Error + bool :=
  match a ≫= (.!! key) with
  | None => inl (AttributeErr key TBool None)
  | Some (VBool b) => inr b
  | Some v => inl (AttributeErr key TBool (Some (kind_of v)))
  end.

(** Modelled from the spec: [Attributes.StringErr], as [BoolErr] for a
    string field. *)
Definition StringErr (a : option (gmap string Value)) (key : string) : Error + string :=
  match a ≫= (.!! key) with
  | None => inl (AttributeErr key TString None)
  | Some (VString s) => inr s
  | Some v => inl (AttributeErr key TString (Some (kind_of v)))
  end.

(** [authboss.Email], with the fields [confirmEmail] fills in. *)
Record Email := { To : list string; From : string; Subject : string }.

(** What [response.Email] is handed: the message, the two template names
    and the data both templates are rendered with. *)
Record MailJob := {
  mj_email : Email;
  mj_htmlTemplate : string;
  mj_textTemplate : string;
  mj_data : string
}.

(** The arguments of a call of [response.Redirect]. *)
Record RedirectCall := {
  rd_path : string;
  rd_flashSuccess : string;
  rd_flashError : string;
  rd_followRedir : bool
}.

(** The part of [authboss.Authboss] and of the per-request collaborators
    the package reads.  [Mailer] is the delivery collaborator: what
    rendering and sending a job answers ([None] is a nil error). *)
Record Config := {
  PrimaryID : string;
  MountPath : string;
  RootURL : string;
  EmailFrom : string;
  EmailSubjectPrefix : string;
  RegisterOKPath : string;
  AllowInsecureLoginAfterConfirm : bool;
  MailMaker_set : bool;
  Mailer : MailJob → option Error
}.

(** [ConfirmStorer]: the storage interface the module requires.  [Put] is
    the write of [authboss.Storer]; [ConfirmUser] looks an account up by
    its confirm token and answers [ErrUserNotFound] when there is none. *)
Class ConfirmStorer (S : Type) := {
  Put : string → gmap string Value → S → Error + S;
  ConfirmUser : string → S → Error + gmap string Value
}.

Inductive StorerCall :=
| CallConfirmUser (confirmToken : string)
| CallPut (key : string) (attr : gmap string Value).

(** [http.Request], as far as [FormValue] reads it. *)
Record Request := { Form : gmap string (list string) }.

(** [r.FormValue(key)]: the first value of the key, or the empty string. *)
Definition FormValue (r : Request) (key : string) : string :=
  match Form r !! key with
  | Some (v :: _) => v
  | _ => ""
  end.

(** Everything a request can read and change: the context's account (a
    nil map is [None]), the storer and the calls made to it, the values put
    in the session, the lines written to the log (format and argument), the
    redirects written to the response, the mail jobs handed over, the
    deliveries left to a goroutine, and the random source. *)
Record World (S : Type) := {
  ctxUser : option (gmap string Value);
  ctxStorer : S;
  StorerCalls : list StorerCall;
  SessionPuts : list (string * string);
  LogWriter : list (string * Error);
  Redirects : list RedirectCall;
  Mails : list MailJob;
  Goroutines : list (string * string);
  randSrc : RandSource
}.

Arguments ctxUser {S} _.
Arguments ctxStorer {S} _.
Arguments StorerCalls {S} _.
Arguments SessionPuts {S} _.
Arguments LogWriter {S} _.
Arguments Redirects {S} _.
Arguments Mails {S} _.
Arguments Goroutines {S} _.
Arguments randSrc {S} _.

(** ** Elementary effects *)

Section Effects.
Context {S : Type}.

Definition set_ctxUser (u : option (gmap string Value)) (w : World S) : World S :=
  {| ctxUser := u; ctxStorer := ctxStorer w; StorerCalls := StorerCalls w;
     SessionPuts := SessionPuts w; LogWriter := LogWriter w;
     Redirects := Redirects w; Mails := Mails w;
     Goroutines := Goroutines w; randSrc := randSrc w |}.

Definition set_storer (s : S) (w : World S) : World S :=
  {| ctxUser := ctxUser w; ctxStorer := s; StorerCalls := StorerCalls w;
     SessionPuts := SessionPuts w; LogWriter := LogWriter w;
     Redirects := Redirects w; Mails := Mails w;
     Goroutines := Goroutines w; randSrc := randSrc w |}.

Definition record_call (c : StorerCall) (w : World S) : World S :=
  {| ctxUser := ctxUser w; ctxStorer := ctxStorer w;
     StorerCalls := StorerCalls w ++ [c];
     SessionPuts := SessionPuts w; LogWriter := LogWriter w;
     Redirects := Redirects w; Mails := Mails w;
     Goroutines := Goroutines w; randSrc := randSrc w |}.

Definition record_session (k v : string) (w : World S) : World S :=
  {| ctxUser := ctxUser w; ctxStorer := ctxStorer w; StorerCalls := StorerCalls w;
     SessionPuts := SessionPuts w ++ [(k, v)]; LogWriter := LogWriter w;
     Redirects := Redirects w; Mails := Mails w;
     Goroutines := Goroutines w; randSrc := randSrc w |}.

Definition record_log (format : string) (e : Error) (w : World S) : World S :=
  {| ctxUser := ctxUser w; ctxStorer := ctxStorer w; StorerCalls := StorerCalls w;
     SessionPuts := SessionPuts w; LogWriter := LogWriter w ++ [(format, e)];
     Redirects := Redirects w; Mails := Mails w;
     Goroutines := Goroutines w; randSrc := randSrc w |}.

Definition record_redirect (r : RedirectCall) (w : World S) : World S :=
  {| ctxUser := ctxUser w; ctxStorer := ctxStorer w; StorerCalls := StorerCalls w;
     SessionPuts := SessionPuts w; LogWriter := LogWriter w;
     Redirects := Redirects w ++ [r]; Mails := Mails w;
     Goroutines := Goroutines w; randSrc := randSrc w |}.

Definition record_mail (j : MailJob) (w : World S) : World S :=
  {| ctxUser := ctxUser w; ctxStorer := ctxStorer w; StorerCalls := StorerCalls w;
     SessionPuts := SessionPuts w; LogWriter := LogWriter w;
     Redirects := Redirects w; Mails := Mails w ++ [j];
     Goroutines := Goroutines w; randSrc := randSrc w |}.

Definition set_goroutines (g : list (string * string)) (w : World S) : World S :=
  {| ctxUser := ctxUser w; ctxStorer := ctxStorer w; StorerCalls := StorerCalls w;
     SessionPuts := SessionPuts w; LogWriter := LogWriter w;
     Redirects := Redirects w; Mails := Mails w;
     Goroutines := g; randSrc := randSrc w |}.

Definition set_randSrc (r : RandSource) (w : World S) : World S :=
  {| ctxUser := ctxUser w; ctxStorer := ctxStorer w; StorerCalls := StorerCalls w;
     SessionPuts := SessionPuts w; LogWriter := LogWriter w;
     Redirects := Redirects w; Mails := Mails w;
     Goroutines := Goroutines w; randSrc := r |}.

(** A computation over the random source, run on the world's source. *)
Definition with_rand {A} (m : M RandSource A) : M (World S) A := fun w =>
  match m (randSrc w) with
  | Ok a r => Ok a (set_randSrc r w)
  | Err e r => Err e (set_randSrc r w)
  | Panic => Panic
  | OutOfFuel => OutOfFuel
  end.

(** [ctx.User[key] = v]; an assignment to an entry of a nil map panics. *)
Definition User_store (key : string) (v : Value) : M (World S) unit := fun w =>
  match ctxUser w with
  | Some u => Ok tt (set_ctxUser (Some (<[key := v]> u)) w)
  | None => Panic
  end.

(** [ctx.User = u] *)
Definition User_assign (u : option (gmap string Value)) : M (World S) unit :=
  fun w => Ok tt (set_ctxUser u w).

(** [ctx.User.StringErr(key)] with the error returned to the caller. *)
Definition User_StringErr (key : string) : M (World S) string := fun w =>
  match StringErr (ctxUser w) key with
  | inr s => Ok s w
  | inl e => Err e w
  end.

(** [ctx.SessionStorer.Put(key, value)] *)
Definition Session_Put (key value : string) : M (World S) unit := fun w =>
  Ok tt (record_session key value w).

(** [fmt.Fprintf(ctx.LogWriter, format, err)] *)
Definition Fprintf_LogWriter (format : string) (e : Error) : M (World S) unit :=
  fun w => Ok tt (record_log format e w).

(** Modelled from the spec: [response.Redirect] is in the package
    [internal/response], outside this source.  The redirect is written
    to the response; the model keeps the arguments of the call. *)
Definition response_Redirect (path flashSuccess flashError : string)
    (followRedir : bool) : M (World S) unit := fun w =>
  Ok tt (record_redirect {| rd_path := path; rd_flashSuccess := flashSuccess;
                            rd_flashError := flashError;
                            rd_followRedir := followRedir |} w).

(** Modelled from the spec: [response.Email] is in the package
    [internal/response].  It renders both templates with the data and
    hands the message to the delivery collaborator, whose error (if any)
    it returns. *)
Definition response_Email (c : Config) (j : MailJob) : M (World S) (option Error) :=
  fun w => Ok (Mailer c j) (record_mail j w).

(** Modelled from the spec: [authboss.Unbind] is in the authboss package;
    it loads the account found by the storer into a (non-nil) attribute
    map. *)
Definition Unbind (user : gmap string Value) : option (gmap string Value) :=
  Some user.

Context `{!ConfirmStorer S}.

(** [ctx.Storer.(ConfirmStorer).ConfirmUser(token)], both results
    returned as a value. *)
Definition Storer_ConfirmUser (token : string)
    : M (World S) (Error + gmap string Value) := fun w =>
  Ok (ConfirmUser token (ctxStorer w)) (record_call (CallConfirmUser token) w).

(** Modelled from the spec: [Context.SaveUser] is in the authboss
    package.  It persists the in-context account, filed under its primary
    identity key, with the storer's [Put], and returns the storer's error
    unchanged.  Without an account in context there is nothing to save;
    an account whose identity key does not read as a string cannot be
    filed. *)
Definition SaveUser (c : Config) : M (World S) unit := fun w =>
  match ctxUser w with
  | None => Ok tt w
  | Some u =>
      match StringErr (Some u) (PrimaryID c) with
      | inl e => Err e w
      | inr key =>
          let w' := record_call (CallPut key u) w in
          match Put key u (ctxStorer w) with
          | inl e => Err e w'
          | inr s' => Ok tt (set_storer s' w')
          end
      end
  end.
End Effects.

(** ** The module's callbacks and handler *)

Section Confirm.
Context `{!GoLib} {S : Type} `{!ConfirmStorer S}.

Definition beforeGet (w : World S) : Interrupt * option Error :=
  match BoolErr (ctxUser w) StoreConfirmed with
  | inl err => (InterruptNone, Some err)
  | inr confirmed =>
      if negb confirmed then (InterruptAccountNotConfirmed, None)
      else (InterruptNone, None)
  end.

(** confirmEmail sends a confirmation e-mail. *)
Definition confirmEmail (c : Config) (to token : string) : M (World S) unit :=
  let p := path_Join (MountPath c) "confirm" in
  let url := RootURL c +:+ p +:+ "?" +:+ url_QueryEscape FormValueConfirm
             +:+ "=" +:+ url_QueryEscape token in
  let email := {| To := [to]; From := EmailFrom c;
                  Subject := EmailSubjectPrefix c +:+ "Confirm New Account" |} in
  err ← response_Email c {| mj_email := email;
                            mj_htmlTemplate := tplConfirmHTML;
                            mj_textTemplate := tplConfirmText;
                            mj_data := url |};
  match err with
  | Some e => Fprintf_LogWriter "confirm: Failed to send e-mail: %v" e
  | None => mret tt
  end.

(** With a mail maker the e-mail is sent before the call returns;
    without one the sending is left to a goroutine, which the model
    queues in [Goroutines]. *)
Definition goConfirmEmail (c : Config) (to token : string) : M (World S) unit :=
  if MailMaker_set c then confirmEmail c to token
  else fun w => Ok tt (set_goroutines (Goroutines w ++ [(to, token)]) w).

(** The scheduler runs the oldest queued goroutine. *)
Definition run_goroutine (c : Config) : M (World S) unit := fun w =>
  match Goroutines w with
  | [] => Ok tt w
  | (to, token) :: rest => confirmEmail c to token (set_goroutines rest w)
  end.

(** AfterRegister ensures the account is not activated. *)
Definition afterRegister (fuel : nat) (c : Config) : M (World S) unit := fun w =>
  match ctxUser w with
  | None => Err errUserMissing w
  | Some _ =>
      (token ← with_rand (RandStringBytesMaskImpr fuel TokenLength);
       User_store StoreConfirmToken (VString (ToUpper token));;
       SaveUser c;;
       email ← User_StringErr StoreEmail;
       goConfirmEmail c email token) w
  end.

Definition confirmHandler (c : Config) (r : Request) : M (World S) unit :=
  let token := FormValue r FormValueConfirm in
  if len token =? 0 then throw (ClientDataErr FormValueConfirm)
  else
    found ← Storer_ConfirmUser (ToUpper token);
    match found with
    | inl err =>
        if decide (err = ErrUserNotFound)
        then throw (ErrAndRedirect "/" "confirm: token not found")
        else throw err
    | inr user =>
        User_assign (Unbind user);;
        User_store StoreConfirmToken (VString "");;
        User_store StoreConfirmed (VBool true);;
        SaveUser c;;
        (if AllowInsecureLoginAfterConfirm c
         then key ← User_StringErr (PrimaryID c); Session_Put SessionKey key
         else mret tt);;
        response_Redirect (RegisterOKPath c)
          "You have successfully confirmed your account." "" true
    end.
End Confirm.

(** ** Notions used to state the properties of the generator *)

(** [letterBytes[idx]], with a zero byte outside the string. *)
Definition letter (idx : Z) : ascii :=
  default zero (String.get (Z.to_nat idx) letterBytes).

Definition is_letter (c : ascii) : bool := is_lower c || is_upper c.


(** The [k]-th 6-bit value examined by a call of the generator that starts
    on the source [r]: ten values are cut from each draw, lowest bits
    first. *)
Definition chunk (r : RandSource) (k : nat) : Z :=
  letterIdx (Z.shiftr (Int63_value r (rs_pos r + k / 10))
                      (letterIdxBits * Z.of_nat (k mod 10))).

(** The first [m] values examined. *)
Definition chunks (r : RandSource) (m : nat) : list Z := chunk r <$> seq 0 m.

(** The accepted ones among the first [m] values, in the order examined. *)
Definition accepted_chunks (r : RandSource) (m : nat) : list Z :=
  List.filter accepted (chunks r m).

(** What the loop does to the buffer, as a function of the values it
    examines: an accepted value is written at [i] and [i] moves down, until
    [i] is negative. *)
Fixpoint fill (l : list Z) (i : Z) (b : list ascii) : list ascii :=
  match l with
  | [] => b
  | x :: l' =>
      if 0 <=? i then
        if accepted x then fill l' (i - 1) (<[Z.to_nat i := letter x]> b)
        else fill l' i b
      else b
  end.

(** The positions [i], [i-1], ..., [0]. *)
Definition countdown (i : Z) : list Z :=
  Z.of_nat <$> rev (seq 0 (Z.to_nat (i + 1))).

(** The loop variables [v] and the source [r] are those of a call started
    on [r0] that has examined [k] values. *)
Definition synced (r0 : RandSource) (k : nat) (v : LoopVars) (r : RandSource) : Prop :=
  rs_draws r = rs_draws r0 ∧
  ((lv_remain v = 0 ∧ (k mod 10 = 0)%nat ∧ rs_pos r = (rs_pos r0 + k / 10)%nat) ∨
   (0 < lv_remain v ∧ lv_remain v = 10 - Z.of_nat (k mod 10) ∧
    rs_pos r = (rs_pos r0 + k / 10 + 1)%nat ∧
    lv_cache v = Z.shiftr (Int63_value r0 (rs_pos r0 + k / 10))
                          (letterIdxBits * Z.of_nat (k mod 10)))).

(** A source that returns [x] on every draw. *)
Definition const_source (x : Z) : RandSource :=
  {| rs_draws := fun _ => x; rs_pos := 0 |}.

Definition token_of {St A} (o : Outcome St A) : option A :=
  match o with Ok a _ => Some a | _ => None end.

(** ** Notions used to state the properties of the callbacks *)

(** The world a computation ends in, when it ends. *)
Definition world_of {St A} (o : Outcome St A) : option St :=
  match o with
  | Ok _ s => Some s
  | Err _ s => Some s
  | Panic => None
  | OutOfFuel => None
  end.

(** The configuration [c] with another delivery collaborator. *)
Definition with_Mailer (m : MailJob → option Error) (c : Config) : Config :=
  {| PrimaryID := PrimaryID c; MountPath := MountPath c; RootURL := RootURL c;
     EmailFrom := EmailFrom c; EmailSubjectPrefix := EmailSubjectPrefix c;
     RegisterOKPath := RegisterOKPath c;
     AllowInsecureLoginAfterConfirm := AllowInsecureLoginAfterConfirm c;
     MailMaker_set := MailMaker_set c; Mailer := m |}.

(** The redirect the handler ends with on success. *)
Definition success_redirect (c : Config) : RedirectCall :=
  {| rd_path := RegisterOKPath c;
     rd_flashSuccess := "You have successfully confirmed your account.";
     rd_flashError := ""; rd_followRedir := true |}.

(** The account as the confirmation handler leaves it. *)
Definition redeemed (u : gmap string Value) : gmap string Value :=
  <[StoreConfirmed := VBool true]> (<[StoreConfirmToken := VString ""]> u).

(** The account as the registration hook leaves it. *)
Definition tokened (token : string) (u : gmap string Value) : gmap string Value :=
  <[StoreConfirmToken := VString token]> u.



(** The contract of the storage capability: the storer keeps a collection
    of accounts, a write that succeeds files the account under its key, and
    the lookup by token answers with an account that holds exactly this
    token, or with [ErrUserNotFound] when no account does. *)
Class StorerLaws (S : Type) `{!ConfirmStorer S} := {
  accounts : S → gmap string (gmap string Value);
  ConfirmUser_sound : ∀ s token u,
    ConfirmUser token s = inr u →
    ∃ key, accounts s !! key = Some u ∧
           u !! StoreConfirmToken = Some (VString token);
  ConfirmUser_complete : ∀ s token key u,
    accounts s !! key = Some u →
    u !! StoreConfirmToken = Some (VString token) →
    ∃ u', ConfirmUser token s = inr u';
  ConfirmUser_missing : ∀ s token,
    (∀ key u, accounts s !! key = Some u →
              u !! StoreConfirmToken ≠ Some (VString token)) →
    ConfirmUser token s = inl ErrUserNotFound;
  Put_accounts : ∀ s key u s',
    Put key u s = inr s' → accounts s' = <[key := u]> (accounts s)
}.

(** Every account of the collection is filed under its own identity key. *)
Definition filed_by_id (c : Config) (m : gmap string (gmap string Value)) : Prop :=
  ∀ key u, m !! key = Some u → u !! PrimaryID c = Some (VString key).

(** At most one account of the collection holds the token. *)
Definition token_unique (token : string) (m : gmap string (gmap string Value)) : Prop :=
  ∀ k1 k2 u1 u2,
    m !! k1 = Some u1 → m !! k2 = Some u2 →
    u1 !! StoreConfirmToken = Some (VString token) →
    u2 !! StoreConfirmToken = Some (VString token) →
    k1 = k2.

(** *** The life of one account *)

(** A freshly created account: not confirmed, no token. *)
Definition fresh_account (a : gmap string Value) : Prop :=
  a !! StoreConfirmed = Some (VBool false) ∧
  (a !! StoreConfirmToken = None ∨ a !! StoreConfirmToken = Some (VString "")).

(** [confirmed == true] implies [confirmToken == ""]. *)
Definition confirm_invariant (a : gmap string Value) : Prop :=
  a !! StoreConfirmed = Some (VBool true) →
  a !! StoreConfirmToken = Some (VString "").

(** One mutating operation on the account [a], leaving it as [a']: the
    registration hook run with [a] in context (on accounts that satisfy
    [guard]), or the confirmation handler run with a token the storer
    answers with [a].  The operation may end with an error; the account is
    then read as the context holds it. *)
Inductive account_step `{!GoLib} (S : Type) `{!ConfirmStorer S}
    (guard : gmap string Value → Prop) (c : Config)
    : gmap string Value → gmap string Value → Prop :=
| step_register fuel (w w' : World S) a a' :
    guard a →
    ctxUser w = Some a →
    world_of (afterRegister fuel c w) = Some w' →
    ctxUser w' = Some a' →
    account_step S guard c a a'
| step_confirm r (w w' : World S) a a' :
    FormValue r FormValueConfirm ≠ "" →
    ConfirmUser (ToUpper (FormValue r FormValueConfirm)) (ctxStorer w) = inr a →
    world_of (confirmHandler c r w) = Some w' →
    ctxUser w' = Some a' →
    account_step S guard c a a'.


Definition not_confirmed (a : gmap string Value) : Prop :=
  a !! StoreConfirmed ≠ Some (VBool true).

(** ** A storer in memory *)

(** The accounts by identity key, and the error every write answers with
    (if any). *)
Record MemStore := {
  Users : gmap string (gmap string Value);
  PutErr : option string
}.

Definition holds_token (token : string) (kv : string * gmap string Value) : bool :=
  bool_decide (kv.2 !! StoreConfirmToken = Some (VString token)).

Global Instance MemStore_storer : ConfirmStorer MemStore := {|
  Put key attr m :=
    match PutErr m with
    | Some msg => inl (ErrExternal msg)
    | None => inr {| Users := <[key := attr]> (Users m); PutErr := None |}
    end;
  ConfirmUser token m :=
    match List.find (holds_token token) (map_to_list (Users m)) with
    | Some kv => inr kv.2
    | None => inl ErrUserNotFound
    end
|}.

(** Stand-ins for the library functions, for running the callbacks. *)
Definition plain_GoLib : GoLib :=
  {| path_Join a b := a +:+ "/" +:+ b;
     url_QueryEscape s := s;
     unicode_ToUpper s := s;
     unicode_ToUpper_nonempty := fun s H => H |}.

Definition demo_config (sync allow : bool) (mailer : MailJob → option Error) : Config :=
  {| PrimaryID := "username"; MountPath := "/auth"; RootURL := "http://localhost";
     EmailFrom := "auth@localhost"; EmailSubjectPrefix := "[site] ";
     RegisterOKPath := "/welcome";
     AllowInsecureLoginAfterConfirm := allow;
     MailMaker_set := sync; Mailer := mailer |}.

Definition demo_account (name : string) : gmap string Value :=
  {[ "username" := VString name;
     StoreEmail := VString (name +:+ "@example.com");
     StoreConfirmed := VBool false ]}.

Definition demo_world (user : option (gmap string Value)) (store : MemStore)
    (r : RandSource) : World MemStore :=
  {| ctxUser := user; ctxStorer := store; StorerCalls := [];
     SessionPuts := []; LogWriter := []; Redirects := []; Mails := [];
     Goroutines := []; randSrc := r |}.

Definition demo_request (token : string) : Request :=
  {| Form := {[ FormValueConfirm := [token] ]} |}.

(** Two accounts, a configuration whose mailer always fails, and a few
    stores, for running the callbacks. *)
Definition alice : gmap string Value := demo_account "alice".
Definition bob : gmap string Value := demo_account "bob".

Definition failing_mailer : MailJob → option Error :=
  fun _ => Some (ErrExternal "smtp down").

Definition demo_cfg : Config := demo_config true false failing_mailer.

Definition two_fresh : MemStore :=
  {| Users := {[ "alice" := alice; "bob" := bob ]}; PutErr := None |}.

Definition alice_pending : gmap string Value := tokened "AAAAAA" alice.

Definition one_pending : MemStore :=
  {| Users := {[ "alice" := alice_pending ]}; PutErr := None |}.

Definition one_pending_write_fails : MemStore :=
  {| Users := {[ "alice" := alice_pending ]}; PutErr := Some "disk full" |}.


(** A pass of the loop that examines the value 52, and one that examines
    the value 51. *)
Definition pass_52 : LoopVars :=
  {| lv_i := 0; lv_cache := 52; lv_remain := 10; lv_b := [zero] |}.
Definition pass_51 : LoopVars :=
  {| lv_i := 0; lv_cache := 51; lv_remain := 10; lv_b := [zero] |}.


(** * Properties of the token generator *)

Ltac Zify.zify_post_hook ::= Z.div_mod_to_equations.

Example gen_zero :
  token_of (RandStringBytesMaskImpr 20 6 (const_source 0)) = Some "aaaaaa".
Proof. vm_compute. reflexivity. Qed.

(** The draw below holds the values 51, 52, 26 and 1 in its low bits: 52 is
    skipped. *)
Example gen_mixed :
  token_of (RandStringBytesMaskImpr 20 3
              (const_source (51 + 64 * (52 + 64 * (26 + 64 * 1))))) = Some "bAZ".
Proof. vm_compute. reflexivity. Qed.

Lemma letterBytes_len : len letterBytes = 52.
Proof. reflexivity. Qed.

Lemma letterIdxMask_val : letterIdxMask = 63.
Proof. reflexivity. Qed.

Lemma letterIdx_range cache : 0 ≤ letterIdx cache < 64.
Proof.
  unfold letterIdx. rewrite letterIdxMask_val.
  change 63 with (Z.ones 6). rewrite Z.land_ones by lia.
  apply Z.mod_pos_bound. lia.
Qed.

Lemma accepted_iff idx : accepted idx = true ↔ idx < 52.
Proof. unfold accepted. rewrite letterBytes_len. apply Z.ltb_lt. Qed.

Lemma accepted_false_iff idx : accepted idx = false ↔ 52 ≤ idx.
Proof. unfold accepted. rewrite letterBytes_len. apply Z.ltb_ge. Qed.

Lemma string_get_lookup (s : string) (n : nat) :
  String.get n s = list_ascii_of_string s !! n.
Proof.
  revert n. induction s as [|c s IH]; intros [|n]; simpl; auto.
Qed.

Lemma letterBytes_NoDup : NoDup (list_ascii_of_string letterBytes).
Proof. apply (bool_decide_unpack _). vm_compute. reflexivity. Qed.

Lemma letterBytes_letters :
  Forall (λ c, is_letter c = true) (list_ascii_of_string letterBytes).
Proof. apply (bool_decide_unpack _). vm_compute. reflexivity. Qed.

Lemma letter_get idx :
  0 ≤ idx < 52 → String.get (Z.to_nat idx) letterBytes = Some (letter idx).
Proof.
  intros Hidx. unfold letter. rewrite string_get_lookup.
  destruct (list_ascii_of_string letterBytes !! Z.to_nat idx) eqn:E; [done|].
  apply lookup_ge_None in E. change (length _) with 52%nat in E. lia.
Qed.

Lemma letter_is_letter idx : 0 ≤ idx < 52 → is_letter (letter idx) = true.
Proof.
  intros Hidx. pose proof (letter_get idx Hidx) as Hg.
  rewrite string_get_lookup in Hg.
  exact (proj1 (Forall_lookup _ _) letterBytes_letters _ _ Hg).
Qed.

Lemma letter_inj j k : 0 ≤ j < 52 → 0 ≤ k < 52 → letter j = letter k → j = k.
Proof.
  intros Hj Hk Heq.
  pose proof (letter_get j Hj) as Gj. pose proof (letter_get k Hk) as Gk.
  rewrite string_get_lookup in Gj, Gk. rewrite Heq in Gj.
  pose proof (NoDup_lookup _ _ _ _ letterBytes_NoDup Gj Gk). lia.
Qed.

Lemma letter_surj c :
  is_letter c = true → ∃ idx, 0 ≤ idx < 52 ∧ letter idx = c.
Proof.
  intros Hc.
  assert (Hall : ∀ c, is_letter c = true → c ∈ list_ascii_of_string letterBytes).
  { clear. intros [[] [] [] [] [] [] [] []] H;
      first [ vm_compute in H; discriminate H
            | apply (bool_decide_unpack _); vm_compute; reflexivity ]. }
  apply Hall in Hc. apply list_elem_of_lookup in Hc as [n Hn].
  pose proof (lookup_lt_Some _ _ _ Hn) as Hlt. change (length _) with 52%nat in Hlt.
  exists (Z.of_nat n). split; [lia|].
  unfold letter. rewrite string_get_lookup, Nat2Z.id, Hn. done.
Qed.

(** *** One pass through the loop *)

Lemma bind_Ok {St A B} (m : M St A) (k : A → M St B) s a s' :
  m s = Ok a s' → (m ≫= k) s = k a s'.
Proof. intros H. unfold mbind, M_bind. rewrite H. reflexivity. Qed.

Lemma refill_synced r0 k v r :
  synced r0 k v r →
  ∃ cache remain r1,
    refill v r = Ok (cache, remain) r1 ∧
    letterIdx cache = chunk r0 k ∧
    ∀ i' b', synced r0 (S k)
               {| lv_i := i'; lv_cache := Z.shiftr cache letterIdxBits;
                  lv_remain := remain - 1; lv_b := b' |} r1.
Proof.
  intros [Hd [(Hrem & Hmod & Hpos) | (Hrem & Hremk & Hpos & Hcache)]].
  - exists (Int63_value r0 (rs_pos r0 + k / 10)), letterIdxMax,
      {| rs_draws := rs_draws r; rs_pos := S (rs_pos r) |}.
    split; [|split].
    + unfold refill. rewrite Hrem. cbn [Z.eqb].
      unfold mbind, M_bind, Int63, Int63_value. rewrite Hpos, Hd. reflexivity.
    + unfold chunk. rewrite Hmod. rewrite Z.mul_0_r, Z.shiftr_0_r. reflexivity.
    + intros i' b'. split; [exact Hd|]. right.
      cbn [lv_remain lv_cache rs_pos rs_draws].
      change letterIdxMax with 10. change letterIdxBits with 6.
      repeat split; try lia.
      replace (Z.of_nat (S k mod 10)) with 1 by lia.
      replace (S k / 10)%nat with (k / 10)%nat by lia. reflexivity.
  - exists (lv_cache v), (lv_remain v), r.
    split; [|split].
    + unfold refill. destruct (Z.eqb_spec (lv_remain v) 0); [lia|]. reflexivity.
    + unfold chunk. rewrite Hcache. reflexivity.
    + intros i' b'. split; [exact Hd|].
      cbn [lv_remain lv_cache rs_pos rs_draws].
      destruct (decide (k mod 10 = 9)%nat) as [H9|H9].
      * left. repeat split; lia.
      * right. change letterIdxBits with 6 in *.
        repeat split; try lia.
        rewrite Hcache, Z.shiftr_shiftr by lia.
        replace (S k / 10)%nat with (k / 10)%nat by lia.
        f_equal. lia.
Qed.

Lemma loop_body_synced r0 k v r :
  synced r0 k v r →
  0 ≤ lv_i v < Z.of_nat (length (lv_b v)) →
  ∃ v' r',
    loop_body v r = Ok v' r' ∧ synced r0 (S k) v' r' ∧
    pass_write v r = (if accepted (chunk r0 k) then Some (lv_i v) else None) ∧
    if accepted (chunk r0 k)
    then lv_i v' = lv_i v - 1 ∧
         lv_b v' = <[Z.to_nat (lv_i v) := letter (chunk r0 k)]> (lv_b v)
    else lv_i v' = lv_i v ∧ lv_b v' = lv_b v.
Proof.
  intros Hs Hi.
  destruct (refill_synced _ _ _ _ Hs) as (cache & remain & r1 & Hre & Hidx & Hnext).
  unfold pass_write, loop_body.
  rewrite Hre, (bind_Ok _ _ _ _ _ Hre). rewrite Hidx.
  destruct (accepted (chunk r0 k)) eqn:Hacc.
  - apply accepted_iff in Hacc.
    assert (Hrange : 0 ≤ chunk r0 k < 52).
    { rewrite <- Hidx in *. pose proof (letterIdx_range cache). lia. }
    rewrite (letter_get _ Hrange).
    destruct (Z.leb_spec 0 (lv_i v)); [|lia].
    destruct (Z.ltb_spec (lv_i v) (Z.of_nat (length (lv_b v)))); [|lia].
    simpl. eexists _, _. split; [reflexivity|]. split; [apply Hnext|]. done.
  - eexists _, _. split; [reflexivity|]. split; [apply Hnext|]. done.
Qed.

Lemma countdown_neg : countdown (-1) = [].
Proof. reflexivity. Qed.


(** *** The loop follows [fill] *)

Lemma fill_length l : ∀ i b, length (fill l i b) = length b.
Proof.
  induction l as [|x l IH]; intros i b; simpl; [done|].
  destruct (0 <=? i); [|done].
  destruct (accepted x); rewrite IH; [apply length_insert|done].
Qed.

Lemma filter_accepted_cons x l :
  List.filter accepted (x :: l) =
  if accepted x then x :: List.filter accepted l else List.filter accepted l.
Proof. reflexivity. Qed.



(** *** What holds of every run, whatever the source *)

Lemma refill_Ok v r : ∃ cache remain r1, refill v r = Ok (cache, remain) r1.
Proof.
  unfold refill. destruct (lv_remain v =? 0); eexists _, _, _; reflexivity.
Qed.

Lemma loop_body_cases v r v' r' :
  loop_body v r = Ok v' r' →
  (lv_i v' = lv_i v ∧ lv_b v' = lv_b v) ∨
  (0 ≤ lv_i v < Z.of_nat (length (lv_b v)) ∧ lv_i v' = lv_i v - 1 ∧
   ∃ idx, 0 ≤ idx < 52 ∧
          lv_b v' = <[Z.to_nat (lv_i v) := letter idx]> (lv_b v)).
Proof.
  destruct (refill_Ok v r) as (cache & remain & r1 & Hre).
  unfold loop_body. rewrite (bind_Ok _ _ _ _ _ Hre).
  destruct (accepted (letterIdx cache)) eqn:Hacc.
  - apply accepted_iff in Hacc. pose proof (letterIdx_range cache) as Hr.
    rewrite letter_get by lia.
    destruct (Z.leb_spec 0 (lv_i v)); [|discriminate].
    destruct (Z.ltb_spec (lv_i v) (Z.of_nat (length (lv_b v)))); [|discriminate].
    intros [= <- <-]. right. cbn [lv_i lv_b]. split; [lia|]. split; [done|].
    exists (letterIdx cache). split; [lia|done].
  - intros [= <- <-]. left. done.
Qed.

Lemma loop_partial : ∀ fuel v r v' r',
  loop fuel v r = Ok v' r' →
  (∀ j c, lv_i v < Z.of_nat j → lv_b v !! j = Some c → is_letter c = true) →
  lv_i v' < 0 ∧ length (lv_b v') = length (lv_b v) ∧
  (∀ j c, lv_b v' !! j = Some c → is_letter c = true).
Proof.
  induction fuel as [|fuel IH]; intros v r v' r' Hl Hinv; [discriminate|].
  simpl in Hl. destruct (Z.leb_spec 0 (lv_i v)) as [Hi|Hi].
  - unfold mbind, M_bind in Hl.
    destruct (loop_body v r) as [v1 r1| | |] eqn:Hb; try discriminate.
    apply loop_body_cases in Hb as [[Hi1 Hb1]|(Hr & Hi1 & idx & Hidx & Hb1)].
    + destruct (IH _ _ _ _ Hl) as (? & ? & ?).
      { rewrite Hi1, Hb1. exact Hinv. }
      rewrite Hb1 in *. done.
    + destruct (IH _ _ _ _ Hl) as (? & Hlen & ?).
      { rewrite Hi1, Hb1. intros j c Hj Hc.
        destruct (decide (j = Z.to_nat (lv_i v))) as [->|Hne].
        - rewrite list_lookup_insert_eq in Hc by lia.
          injection Hc as <-. by apply letter_is_letter.
        - rewrite list_lookup_insert_ne in Hc by done.
          apply (Hinv j c); [lia|done]. }
      rewrite Hb1, length_insert in Hlen. done.
  - injection Hl as <- <-. split; [lia|]. split; [done|].
    intros j c. apply Hinv. lia.
Qed.

Lemma len_string_of_list (l : list ascii) :
  len (string_of_list_ascii l) = Z.of_nat (length l).
Proof.
  unfold len. f_equal. induction l as [|c l IH]; simpl; [done|by rewrite IH].
Qed.

Lemma string_forallb_of_list p (l : list ascii) :
  (∀ j c, l !! j = Some c → p c = true) →
  string_forallb p (string_of_list_ascii l) = true.
Proof.
  induction l as [|c l IH]; intros H; simpl; [done|].
  rewrite (H 0%nat c eq_refl). simpl. apply IH.
  intros j c' Hj. exact (H (S j) c' Hj).
Qed.


Lemma RandStringBytesMaskImpr_partial fuel n r s r' :
  RandStringBytesMaskImpr fuel n r = Ok s r' →
  0 ≤ n ∧ len s = n ∧ string_forallb is_letter s = true.
Proof.
  unfold RandStringBytesMaskImpr. destruct (Z.ltb_spec n 0) as [|Hn]; [discriminate|].
  unfold mbind, M_bind. cbn [Int63].
  match goal with |- context [loop fuel ?v ?r] =>
    destruct (loop fuel v r) as [v' r1| | |] eqn:Hl end; try discriminate.
  intros [= <- <-]. apply loop_partial in Hl as (_ & Hlen & Hall).
  - cbn [lv_b] in Hlen. rewrite length_replicate in Hlen.
    split; [done|]. split.
    + rewrite len_string_of_list. lia.
    + by apply string_forallb_of_list.
  - cbn [lv_i lv_b]. intros j c Hj Hc.
    apply lookup_replicate in Hc as [_ Hlt]. lia.
Qed.

(** *** Runs that return, and runs that do not *)

Lemma synced_start r0 n b :
  synced r0 0
    {| lv_i := n; lv_cache := Int63_value r0 (rs_pos r0);
       lv_remain := letterIdxMax; lv_b := b |}
    {| rs_draws := rs_draws r0; rs_pos := S (rs_pos r0) |}.
Proof.
  split; [done|]. right. cbn [lv_remain lv_cache rs_pos].
  change letterIdxMax with 10. change (0 mod 10)%nat with 0%nat.
  change (0 / 10)%nat with 0%nat.
  repeat split; try lia.
  rewrite Z.mul_0_r, Z.shiftr_0_r. f_equal. lia.
Qed.




(** *** Outcomes *)

(** The generator neither panics nor returns an error. *)
Lemma loop_S fuel v r :
  loop (S fuel) v r =
  if 0 <=? lv_i v then (loop_body v ≫= loop fuel) r else Ok v r.
Proof. simpl. destruct (0 <=? lv_i v); reflexivity. Qed.

Lemma loop_body_Ok v r :
  0 ≤ lv_i v < Z.of_nat (length (lv_b v)) →
  ∃ v' r', loop_body v r = Ok v' r' ∧ lv_i v' ≤ lv_i v ∧
           length (lv_b v') = length (lv_b v).
Proof.
  intros Hi. destruct (refill_Ok v r) as (cache & remain & r1 & Hre).
  unfold loop_body. rewrite (bind_Ok _ _ _ _ _ Hre).
  destruct (accepted (letterIdx cache)) eqn:Hacc.
  - apply accepted_iff in Hacc. pose proof (letterIdx_range cache).
    rewrite letter_get by lia.
    destruct (Z.leb_spec 0 (lv_i v)); [|lia].
    destruct (Z.ltb_spec (lv_i v) (Z.of_nat (length (lv_b v)))); [|lia].
    eexists _, _. split; [reflexivity|]. cbn [lv_i lv_b].
    rewrite length_insert. lia.
  - eexists _, _. split; [reflexivity|]. cbn [lv_i lv_b]. lia.
Qed.

Lemma loop_outcome : ∀ fuel v r,
  lv_i v < Z.of_nat (length (lv_b v)) →
  (∃ v' r', loop fuel v r = Ok v' r') ∨ loop fuel v r = OutOfFuel.
Proof.
  induction fuel as [|fuel IH]; intros v r Hi; [by right|].
  rewrite loop_S. destruct (Z.leb_spec 0 (lv_i v)) as [Hi0|Hi0];
    [|left; by eexists _, _].
  destruct (loop_body_Ok v r) as (v1 & r1 & Hb & Hi1 & Hlen); [lia|].
  rewrite (bind_Ok _ _ _ _ _ Hb). apply IH. lia.
Qed.

Lemma RandStringBytesMaskImpr_outcome fuel n r :
  0 ≤ n →
  (∃ s r', RandStringBytesMaskImpr fuel n r = Ok s r') ∨
  RandStringBytesMaskImpr fuel n r = OutOfFuel.
Proof.
  intros Hn. unfold RandStringBytesMaskImpr.
  destruct (Z.ltb_spec n 0); [lia|].
  unfold mbind, M_bind. cbn [Int63].
  match goal with |- context [loop fuel ?v ?r] =>
    destruct (loop_outcome fuel v r) as [(v' & r' & ->)| ->] end.
  - cbn [lv_i lv_b]. rewrite length_replicate. lia.
  - left. by eexists _, _.
  - by right.
Qed.

Lemma loop_deterministic : ∀ fuel fuel' v r v1 r1 v2 r2,
  loop fuel v r = Ok v1 r1 → loop fuel' v r = Ok v2 r2 → v1 = v2 ∧ r1 = r2.
Proof.
  induction fuel as [|fuel IH]; intros [|fuel'] v r v1 r1 v2 r2; try discriminate.
  rewrite !loop_S. destruct (0 <=? lv_i v).
  - unfold mbind, M_bind. destruct (loop_body v r) as [v' r'| | |]; try discriminate.
    apply IH.
  - intros [= <- <-] [= <- <-]. done.
Qed.

Lemma RandStringBytesMaskImpr_deterministic fuel fuel' n r s1 r1 s2 r2 :
  RandStringBytesMaskImpr fuel n r = Ok s1 r1 →
  RandStringBytesMaskImpr fuel' n r = Ok s2 r2 →
  s1 = s2 ∧ r1 = r2.
Proof.
  unfold RandStringBytesMaskImpr. destruct (n <? 0); [discriminate|].
  unfold mbind, M_bind. cbn [Int63].
  match goal with |- context [loop fuel ?v ?r] =>
    destruct (loop fuel v r) as [v1 r1'| | |] eqn:H1; try discriminate;
    destruct (loop fuel' v r) as [v2 r2'| | |] eqn:H2; try discriminate end.
  destruct (loop_deterministic _ _ _ _ _ _ _ _ H1 H2) as [-> ->].
  intros [= <- <-] [= <- <-]. done.
Qed.

Lemma is_letter_not_digit c : is_letter c = true → is_digit c = false.
Proof.
  unfold is_letter, is_lower, is_upper, is_digit. intros H.
  apply andb_false_iff. right. apply N.leb_gt.
  apply orb_prop in H as [H|H]; apply andb_prop in H as [H _];
    apply N.leb_le in H; lia.
Qed.

(** * The claims about the token generator *)

(** C1 (amended). In one pass of the loop, the 6-bit value cut from the
    cache lies in 0..63 and is rejected if and only if it lies in 52..63: a
    rejected value writes nothing and leaves the index where it is; an
    accepted value, in 0..51, writes the character [letterBytes[idx]] at
    the index and moves the index down by one; either way the cache moves
    on by six bits.  Distinct accepted values select distinct characters,
    the characters selected are exactly the 52 letters [[a-zA-Z]], each by
    exactly one of the 64 values, and no digit is ever selected. *)
Theorem C1_values_52_to_63_are_rejected v r :
  0 ≤ lv_i v < Z.of_nat (length (lv_b v)) →
  (∃ cache remain r1 v',
     refill v r = Ok (cache, remain) r1 ∧
     loop_body v r = Ok v' r1 ∧
     0 ≤ letterIdx cache < 64 ∧
     (accepted (letterIdx cache) = false ↔ 52 ≤ letterIdx cache ≤ 63) ∧
     (accepted (letterIdx cache) = false →
        lv_i v' = lv_i v ∧ lv_b v' = lv_b v) ∧
     (accepted (letterIdx cache) = true →
        lv_i v' = lv_i v - 1 ∧
        String.get (Z.to_nat (letterIdx cache)) letterBytes =
          Some (letter (letterIdx cache)) ∧
        lv_b v' = <[Z.to_nat (lv_i v) := letter (letterIdx cache)]> (lv_b v)) ∧
     lv_cache v' = Z.shiftr cache letterIdxBits ∧
     lv_remain v' = remain - 1) ∧
  len letterBytes = 52 ∧
  (∀ j k, 0 ≤ j → 0 ≤ k → accepted j = true → accepted k = true →
          letter j = letter k → j = k) ∧
  (∀ idx, 0 ≤ idx → accepted idx = true →
          is_letter (letter idx) = true ∧ is_digit (letter idx) = false) ∧
  (∀ c, is_letter c = true →
        ∃ idx, 0 ≤ idx < 64 ∧ accepted idx = true ∧ letter idx = c ∧
               ∀ idx', 0 ≤ idx' < 64 → accepted idx' = true →
                       letter idx' = c → idx' = idx).
Proof.
  intros Hi. split; [|split; [reflexivity|split; [|split]]].
  - destruct (refill_Ok v r) as (cache & remain & r1 & Hre).
    pose proof (letterIdx_range cache) as Hrange.
    exists cache, remain, r1.
    unfold loop_body. rewrite (bind_Ok _ _ _ _ _ Hre).
    destruct (accepted (letterIdx cache)) eqn:Hacc.
    + apply accepted_iff in Hacc. rewrite letter_get by lia.
      destruct (Z.leb_spec 0 (lv_i v)); [|lia].
      destruct (Z.ltb_spec (lv_i v) (Z.of_nat (length (lv_b v)))); [|lia].
      eexists. split; [exact Hre|]. split; [reflexivity|]. split; [lia|].
      split; [split; [discriminate|lia]|]. split; [discriminate|].
      split; [|done]. intros _. done.
    + apply accepted_false_iff in Hacc.
      eexists. split; [exact Hre|]. split; [reflexivity|]. split; [lia|].
      split; [split; [lia|done]|]. split; [done|]. split; [discriminate|done].
  - intros j k Hj Hk Haj Hak. apply accepted_iff in Haj, Hak.
    apply letter_inj; lia.
  - intros idx Hidx Hacc. apply accepted_iff in Hacc.
    assert (Hl : is_letter (letter idx) = true) by (apply letter_is_letter; lia).
    split; [exact Hl|by apply is_letter_not_digit].
  - intros c Hc. destruct (letter_surj c Hc) as (idx & Hidx & Hl).
    exists idx. split; [lia|]. split; [apply accepted_iff; lia|]. split; [exact Hl|].
    intros idx' Hidx' Hacc' Hl'. apply accepted_iff in Hacc'.
    apply letter_inj; [lia|lia|congruence].
Qed.



(** * Properties of strings *)

Lemma len_eq_0 s : (len s =? 0) = true ↔ s = "".
Proof.
  unfold len. destruct s; simpl; [done|].
  split; intros H; discriminate H.
Qed.

Lemma string_map_length f s : String.length (string_map f s) = String.length s.
Proof. induction s as [|c s IH]; simpl; [done|by rewrite IH]. Qed.

Lemma string_map_upper_id s :
  string_existsb is_lower s = false → string_map upper_byte s = s.
Proof.
  induction s as [|c s IH]; simpl; [done|].
  intros H. apply orb_false_elim in H as [Hc Hs].
  rewrite IH by done. unfold upper_byte. by rewrite Hc.
Qed.

(** On a pure-ASCII string [ToUpper] is the byte-wise mapping. *)
Lemma ToUpper_ascii `{!GoLib} s :
  string_forallb is_ascii_byte s = true → ToUpper s = string_map upper_byte s.
Proof.
  intros Hs. unfold ToUpper. rewrite Hs.
  destruct (string_existsb is_lower s) eqn:E; [done|].
  by rewrite string_map_upper_id.
Qed.

Lemma ToUpper_nonempty `{!GoLib} s : s ≠ "" → ToUpper s ≠ "".
Proof.
  intros Hs. unfold ToUpper.
  destruct (string_forallb is_ascii_byte s).
  - destruct (string_existsb is_lower s); [|done].
    destruct s; [done|]. simpl. discriminate.
  - by apply unicode_ToUpper_nonempty.
Qed.

Lemma is_letter_ascii c : is_letter c = true → is_ascii_byte c = true.
Proof.
  unfold is_letter, is_lower, is_upper, is_ascii_byte.
  intros H. apply N.ltb_lt.
  apply orb_prop in H as [H|H]; apply andb_prop in H as [_ H];
    apply N.leb_le in H; lia.
Qed.

Lemma letters_ascii s :
  string_forallb is_letter s = true → string_forallb is_ascii_byte s = true.
Proof.
  induction s as [|c s IH]; simpl; [done|].
  intros H. apply andb_prop in H as [Hc Hs].
  by rewrite (is_letter_ascii _ Hc), IH.
Qed.





(** * Properties of the callbacks *)

Section Callbacks.
Context `{!GoLib} {S : Type} `{!ConfirmStorer S}.

Implicit Types (c : Config) (w : World S) (u : gmap string Value).

Local Arguments ToUpper : simpl never.
Local Arguments RandStringBytesMaskImpr : simpl never.
Local Arguments String.append : simpl never.

(** *** Elementary runs *)

Lemma SaveUser_run c w u :
  ctxUser w = Some u →
  SaveUser c w =
  match StringErr (Some u) (PrimaryID c) with
  | inl e => Err e w
  | inr key =>
      match Put key u (ctxStorer w) with
      | inl e => Err e (record_call (CallPut key u) w)
      | inr s' => Ok tt (set_storer s' (record_call (CallPut key u) w))
      end
  end.
Proof. intros Hu. unfold SaveUser. rewrite Hu. reflexivity. Qed.

(** Sending never fails the caller: the run ends as with a mailer that
    succeeds, but for one line in the log when the mailer fails. *)
Lemma confirmEmail_run c to token w :
  ∃ w0,
    confirmEmail (with_Mailer (λ _, None) c) to token w = Ok tt w0 ∧
    ctxUser w0 = ctxUser w ∧ ctxStorer w0 = ctxStorer w ∧
    StorerCalls w0 = StorerCalls w ∧
    (confirmEmail c to token w = Ok tt w0 ∨
     ∃ e, confirmEmail c to token w =
          Ok tt (record_log "confirm: Failed to send e-mail: %v" e w0)).
Proof.
  eexists. split; [reflexivity|]. repeat split.
  unfold confirmEmail, response_Email, mbind, M_bind.
  match goal with |- context [Mailer c ?j] => destruct (Mailer c j) as [e|] end.
  - right. exists e. reflexivity.
  - left. reflexivity.
Qed.

Lemma goConfirmEmail_run c to token w :
  ∃ w0,
    goConfirmEmail (with_Mailer (λ _, None) c) to token w = Ok tt w0 ∧
    ctxUser w0 = ctxUser w ∧ ctxStorer w0 = ctxStorer w ∧
    StorerCalls w0 = StorerCalls w ∧
    (goConfirmEmail c to token w = Ok tt w0 ∨
     ∃ e, goConfirmEmail c to token w =
          Ok tt (record_log "confirm: Failed to send e-mail: %v" e w0)).
Proof.
  unfold goConfirmEmail. cbn [with_Mailer MailMaker_set].
  destruct (MailMaker_set c).
  - apply confirmEmail_run.
  - eexists. split; [reflexivity|]. repeat split. by left.
Qed.

(** The hook, once the token is drawn. *)
Lemma afterRegister_run fuel c w u :
  ctxUser w = Some u →
  afterRegister fuel c w =
  match RandStringBytesMaskImpr fuel TokenLength (randSrc w) with
  | Ok token rs' =>
      (SaveUser c;;
       email ← User_StringErr StoreEmail;
       goConfirmEmail c email token)
        (set_ctxUser (Some (tokened (ToUpper token) u)) (set_randSrc rs' w))
  | Err e rs' => Err e (set_randSrc rs' w)
  | Panic => Panic
  | OutOfFuel => OutOfFuel
  end.
Proof.
  intros Hu. unfold afterRegister. rewrite Hu.
  unfold mbind at 1. unfold M_bind at 1. unfold with_rand.
  destruct (RandStringBytesMaskImpr fuel TokenLength (randSrc w)); try reflexivity.
  unfold mbind at 1. unfold M_bind at 1. unfold User_store.
  cbn [ctxUser set_randSrc]. rewrite Hu. reflexivity.
Qed.

(** Whatever way the hook ends, the account in context is the one it
    was given, with the upper-cased token stored. *)
Lemma afterRegister_user fuel c w u w' :
  ctxUser w = Some u →
  world_of (afterRegister fuel c w) = Some w' →
  ∃ token rs',
    RandStringBytesMaskImpr fuel TokenLength (randSrc w) = Ok token rs' ∧
    ctxUser w' = Some (tokened (ToUpper token) u).
Proof.
  intros Hu. rewrite (afterRegister_run _ _ _ _ Hu).
  destruct (RandStringBytesMaskImpr_outcome fuel TokenLength (randSrc w))
    as [(token & rs' & ->)| ->]; [done| |done].
  intros Hw. exists token, rs'. split; [done|]. revert Hw.
  set (w1 := set_ctxUser _ _).
  assert (Hu1 : ctxUser w1 = Some (tokened (ToUpper token) u)) by done.
  unfold mbind at 1. unfold M_bind at 1. rewrite (SaveUser_run _ _ _ Hu1).
  destruct (StringErr _ (PrimaryID c)) as [e|key]; [by intros [= <-]|].
  destruct (Put key _ _) as [e|s']; [by intros [= <-]|].
  unfold mbind at 1. unfold M_bind at 1. unfold User_StringErr.
  destruct (StringErr _ StoreEmail) as [e|email]; [by intros [= <-]|].
  destruct (goConfirmEmail_run c email token
              (set_storer s' (record_call (CallPut key (tokened (ToUpper token) u)) w1)))
    as (w0 & _ & Hu0 & _ & _ & [-> | [e ->]]); intros [= <-]; exact Hu0.
Qed.

(** The handler, once the storer has answered with an account. *)
Lemma confirmHandler_found c r w user :
  FormValue r FormValueConfirm ≠ "" →
  ConfirmUser (ToUpper (FormValue r FormValueConfirm)) (ctxStorer w) = inr user →
  confirmHandler c r w =
  let w1 := set_ctxUser (Some (redeemed user))
              (record_call (CallConfirmUser (ToUpper (FormValue r FormValueConfirm))) w) in
  match StringErr (Some (redeemed user)) (PrimaryID c) with
  | inl e => Err e w1
  | inr key =>
      match Put key (redeemed user) (ctxStorer w) with
      | inl e => Err e (record_call (CallPut key (redeemed user)) w1)
      | inr s' =>
          let w2 := set_storer s' (record_call (CallPut key (redeemed user)) w1) in
          Ok tt (record_redirect (success_redirect c)
                   (if AllowInsecureLoginAfterConfirm c
                    then record_session SessionKey key w2 else w2))
      end
  end.
Proof.
  intros Htok Hfound. unfold confirmHandler.
  destruct (len (FormValue r FormValueConfirm) =? 0) eqn:E;
    [by apply len_eq_0 in E|].
  unfold mbind at 1. unfold M_bind at 1. unfold Storer_ConfirmUser at 1.
  rewrite Hfound.
  unfold mbind at 1. unfold M_bind at 1. unfold User_assign.
  unfold mbind at 1. unfold M_bind at 1. unfold User_store at 1.
  cbn [ctxUser set_ctxUser Unbind].
  unfold mbind at 1. unfold M_bind at 1. unfold User_store at 1.
  cbn [ctxUser set_ctxUser].
  fold (redeemed user).
  set (w1 := set_ctxUser (Some (redeemed user)) _).
  assert (Hu1 : ctxUser w1 = Some (redeemed user)) by done.
  unfold mbind at 1. unfold M_bind at 1. rewrite (SaveUser_run _ _ _ Hu1).
  destruct (StringErr (Some (redeemed user)) (PrimaryID c)) as [e|key] eqn:Hkey;
    [reflexivity|].
  change (ctxStorer w1) with (ctxStorer w).
  destruct (Put key (redeemed user) (ctxStorer w)) as [e|s']; [reflexivity|].
  cbv zeta. unfold mbind at 1. unfold M_bind at 1.
  destruct (AllowInsecureLoginAfterConfirm c); [|reflexivity].
  unfold mbind at 1. unfold M_bind at 1. unfold User_StringErr.
  cbn [ctxUser set_storer record_call]. change (ctxUser w1) with (Some (redeemed user)).
  rewrite Hkey. reflexivity.
Qed.

Lemma afterRegister_no_panic fuel c w : afterRegister fuel c w ≠ Panic.
Proof.
  destruct (ctxUser w) as [u|] eqn:Hu; [|unfold afterRegister; by rewrite Hu].
  rewrite (afterRegister_run _ _ _ _ Hu).
  destruct (RandStringBytesMaskImpr_outcome fuel TokenLength (randSrc w))
    as [(token & rs' & ->)| ->]; [done| |done].
  set (w1 := set_ctxUser _ _).
  assert (Hu1 : ctxUser w1 = Some (tokened (ToUpper token) u)) by done.
  unfold mbind at 1. unfold M_bind at 1. rewrite (SaveUser_run _ _ _ Hu1).
  destruct (StringErr _ (PrimaryID c)) as [e|key]; [done|].
  destruct (Put key _ _) as [e|s']; [done|].
  unfold mbind at 1. unfold M_bind at 1. unfold User_StringErr.
  destruct (StringErr _ StoreEmail) as [e|email]; [done|].
  destruct (goConfirmEmail_run c email token
              (set_storer s' (record_call (CallPut key (tokened (ToUpper token) u)) w1)))
    as (w0 & _ & _ & _ & _ & [-> | [e ->]]); done.
Qed.

(** The hook, once the token is drawn and persisted and the address is
    read: what is left is the delivery. *)
Lemma afterRegister_delivers fuel c w u token rs' key s' email :
  ctxUser w = Some u →
  RandStringBytesMaskImpr fuel TokenLength (randSrc w) = Ok token rs' →
  StringErr (Some (tokened (ToUpper token) u)) (PrimaryID c) = inr key →
  Put key (tokened (ToUpper token) u) (ctxStorer w) = inr s' →
  StringErr (Some (tokened (ToUpper token) u)) StoreEmail = inr email →
  afterRegister fuel c w =
  goConfirmEmail c email token
    (set_storer s'
       (record_call (CallPut key (tokened (ToUpper token) u))
          (set_ctxUser (Some (tokened (ToUpper token) u)) (set_randSrc rs' w)))).
Proof.
  intros Hu Hgen Hkey Hput Hemail.
  rewrite (afterRegister_run _ _ _ _ Hu), Hgen.
  set (w1 := set_ctxUser _ _).
  assert (Hu1 : ctxUser w1 = Some (tokened (ToUpper token) u)) by done.
  unfold mbind at 1. unfold M_bind at 1.
  rewrite (SaveUser_run _ _ _ Hu1), Hkey.
  change (ctxStorer w1) with (ctxStorer w). rewrite Hput.
  unfold mbind at 1. unfold M_bind at 1. unfold User_StringErr.
  change (ctxUser (set_storer s' (record_call _ w1)))
    with (Some (tokened (ToUpper token) u)).
  rewrite Hemail. reflexivity.
Qed.

(** *** The gate *)

(** C8. The gate reads the account's [confirmed] field: when it reads as
    true there is no interrupt and no error; when it reads as false the
    gate answers with the account-not-confirmed interrupt; when it does not
    read as a boolean (absent, or a value of another type) the gate answers
    with the field-access error and no interrupt. *)
Theorem C8_gate_follows_confirmed w :
  (ctxUser w ≫= (.!! StoreConfirmed) = Some (VBool true) →
   beforeGet w = (InterruptNone, None)) ∧
  (ctxUser w ≫= (.!! StoreConfirmed) = Some (VBool false) →
   beforeGet w = (InterruptAccountNotConfirmed, None)) ∧
  ((∀ b, ctxUser w ≫= (.!! StoreConfirmed) ≠ Some (VBool b)) →
   ∃ e, BoolErr (ctxUser w) StoreConfirmed = inl e ∧
        beforeGet w = (InterruptNone, Some e)).
Proof.
  unfold beforeGet, BoolErr.
  destruct (ctxUser w ≫= (.!! StoreConfirmed)) as [[n|s|[]|t]|];
    repeat split; try discriminate; intros Hno;
    try (by eexists); by destruct (Hno _ eq_refl).
Qed.

(** *** The confirmation handler *)

(** C7. A request whose token parameter is empty fails with the
    client-data error that names the parameter [cnf]; the world is left as
    it was, so the storer was neither asked for an account nor written
    to. *)
Theorem C7_empty_token_is_client_error c r w :
  FormValue r FormValueConfirm = "" →
  FormValueConfirm = "cnf" ∧
  confirmHandler c r w = Err (ClientDataErr "cnf") w ∧
  ∀ w', world_of (confirmHandler c r w) = Some w' →
        StorerCalls w' = StorerCalls w ∧ ctxStorer w' = ctxStorer w.
Proof.
  intros Htok. split; [reflexivity|].
  assert (Hrun : confirmHandler c r w = Err (ClientDataErr "cnf") w).
  { unfold confirmHandler. rewrite Htok. reflexivity. }
  split; [exact Hrun|]. rewrite Hrun. by intros w' [= <-].
Qed.

(** C2 (amended). When the token parameter is not empty, the storer
    answers the upper-cased token with an account, the account's identity
    key reads as a string and the storer's write succeeds, the handler
    returns no error; the account in context is the one found with
    [confirmed] set to true and [confirmToken] set to the empty string;
    this account is what was written to the storer; and the response is a
    redirect to [RegisterOKPath]. *)
Theorem C2_redemption_confirms_and_redirects c r w user key s' :
  FormValue r FormValueConfirm ≠ "" →
  ConfirmUser (ToUpper (FormValue r FormValueConfirm)) (ctxStorer w) = inr user →
  StringErr (Some (redeemed user)) (PrimaryID c) = inr key →
  Put key (redeemed user) (ctxStorer w) = inr s' →
  ∃ w',
    confirmHandler c r w = Ok tt w' ∧
    ctxUser w' = Some (redeemed user) ∧
    redeemed user !! StoreConfirmed = Some (VBool true) ∧
    redeemed user !! StoreConfirmToken = Some (VString "") ∧
    ctxStorer w' = s' ∧
    StorerCalls w' = StorerCalls w ++
      [CallConfirmUser (ToUpper (FormValue r FormValueConfirm));
       CallPut key (redeemed user)] ∧
    Redirects w' = Redirects w ++ [success_redirect c] ∧
    rd_path (success_redirect c) = RegisterOKPath c.
Proof.
  intros Htok Hfound Hkey Hput.
  rewrite (confirmHandler_found _ _ _ _ Htok Hfound). cbv zeta.
  rewrite Hkey, Hput. eexists. split; [reflexivity|].
  split; [by destruct (AllowInsecureLoginAfterConfirm c)|].
  split; [apply lookup_insert_eq|].
  split; [unfold redeemed; by rewrite lookup_insert_ne, lookup_insert_eq|].
  split; [by destruct (AllowInsecureLoginAfterConfirm c)|].
  split; [|split; [by destruct (AllowInsecureLoginAfterConfirm c)|done]].
  destruct (AllowInsecureLoginAfterConfirm c); cbn; by rewrite <- app_assoc.
Qed.

(** *** The registration hook *)

(** C9. Once the token is drawn and persisted and the e-mail address is
    read, the hook returns no error whatever the delivery collaborator
    answers: its run ends as the run with a collaborator that succeeds,
    but for one line in the log when the delivery failed.  The same holds
    of every run of [confirmEmail], so also of a delivery left to a
    goroutine. *)
Theorem C9_delivery_failure_is_only_logged fuel c w u token rs' key s' email :
  ctxUser w = Some u →
  RandStringBytesMaskImpr fuel TokenLength (randSrc w) = Ok token rs' →
  StringErr (Some (tokened (ToUpper token) u)) (PrimaryID c) = inr key →
  Put key (tokened (ToUpper token) u) (ctxStorer w) = inr s' →
  StringErr (Some (tokened (ToUpper token) u)) StoreEmail = inr email →
  (∃ w0,
     afterRegister fuel (with_Mailer (λ _, None) c) w = Ok tt w0 ∧
     (afterRegister fuel c w = Ok tt w0 ∨
      ∃ e, afterRegister fuel c w =
           Ok tt (record_log "confirm: Failed to send e-mail: %v" e w0))) ∧
  (∀ to tok (wg : World S), ∃ g0,
     confirmEmail (with_Mailer (λ _, None) c) to tok wg = Ok tt g0 ∧
     (confirmEmail c to tok wg = Ok tt g0 ∨
      ∃ e, confirmEmail c to tok wg =
           Ok tt (record_log "confirm: Failed to send e-mail: %v" e g0))).
Proof.
  intros Hu Hgen Hkey Hput Hemail. split.
  - rewrite (afterRegister_delivers fuel c w u token rs' key s' email) by done.
    rewrite (afterRegister_delivers fuel (with_Mailer (λ _, None) c) w u token rs'
               key s' email) by done.
    destruct (goConfirmEmail_run c email token
                (set_storer s'
                   (record_call (CallPut key (tokened (ToUpper token) u))
                      (set_ctxUser (Some (tokened (ToUpper token) u))
                         (set_randSrc rs' w)))))
      as (w0 & H0 & _ & _ & _ & Hc).
    exists w0. split; [exact H0|exact Hc].
  - intros to tok wg.
    destruct (confirmEmail_run c to tok wg) as (g0 & H0 & _ & _ & _ & Hc).
    exists g0. split; [exact H0|exact Hc].
Qed.

(** C10. Run with an account in context, the hook does not panic, and
    however it ends the account in context differs from the one it was
    given in the [confirmToken] field only: [confirmed], [email] and (when
    the identity key is not named as the token field) the primary identity
    key read as before.  The hook does not write [confirmed]. *)
Theorem C10_hook_writes_only_the_token fuel c w u :
  ctxUser w = Some u →
  afterRegister fuel c w ≠ Panic ∧
  ∀ w', world_of (afterRegister fuel c w) = Some w' →
    ∃ u', ctxUser w' = Some u' ∧
          (∀ k, k ≠ StoreConfirmToken → u' !! k = u !! k) ∧
          u' !! StoreConfirmed = u !! StoreConfirmed ∧
          u' !! StoreEmail = u !! StoreEmail ∧
          (PrimaryID c ≠ StoreConfirmToken → u' !! PrimaryID c = u !! PrimaryID c).
Proof.
  intros Hu. split; [apply afterRegister_no_panic|].
  intros w' Hw'.
  destruct (afterRegister_user _ _ _ _ _ Hu Hw') as (token & rs' & _ & Hu').
  exists (tokened (ToUpper token) u). split; [exact Hu'|].
  assert (Hframe : ∀ k, k ≠ StoreConfirmToken →
                        tokened (ToUpper token) u !! k = u !! k).
  { intros k Hk. unfold tokened. by rewrite lookup_insert_ne. }
  split; [exact Hframe|]. split; [by apply Hframe|]. split; [by apply Hframe|].
  intros Hk. by apply Hframe.
Qed.

(** *** How the callbacks end *)

(** Whatever way the handler ends after the storer answered with an
    account, the account in context is this one, redeemed. *)
Lemma confirmHandler_user c r w user w' :
  FormValue r FormValueConfirm ≠ "" →
  ConfirmUser (ToUpper (FormValue r FormValueConfirm)) (ctxStorer w) = inr user →
  world_of (confirmHandler c r w) = Some w' →
  ctxUser w' = Some (redeemed user).
Proof.
  intros Htok Hfound. rewrite (confirmHandler_found _ _ _ _ Htok Hfound). cbv zeta.
  destruct (StringErr _ _) as [e|key]; [by intros [= <-]|].
  destruct (Put key _ _) as [e|s']; [by intros [= <-]|].
  intros [= <-]. by destruct (AllowInsecureLoginAfterConfirm c).
Qed.

(** A run of the handler that returns no error found an account and wrote
    it back. *)
Lemma confirmHandler_Ok_inv c r w w' :
  confirmHandler c r w = Ok tt w' →
  FormValue r FormValueConfirm ≠ "" ∧
  ∃ user key,
    ConfirmUser (ToUpper (FormValue r FormValueConfirm)) (ctxStorer w) = inr user ∧
    StringErr (Some (redeemed user)) (PrimaryID c) = inr key ∧
    Put key (redeemed user) (ctxStorer w) = inr (ctxStorer w').
Proof.
  intros Hrun.
  assert (Htok : FormValue r FormValueConfirm ≠ "").
  { intros Hempty. unfold confirmHandler in Hrun. by rewrite Hempty in Hrun. }
  split; [exact Htok|].
  destruct (ConfirmUser (ToUpper (FormValue r FormValueConfirm)) (ctxStorer w))
    as [err|user] eqn:Hfound.
  - exfalso. revert Hrun. unfold confirmHandler.
    destruct (len (FormValue r FormValueConfirm) =? 0); [done|].
    unfold mbind at 1. unfold M_bind at 1. unfold Storer_ConfirmUser at 1.
    rewrite Hfound. by destruct (decide (err = ErrUserNotFound)).
  - exists user. revert Hrun.
    rewrite (confirmHandler_found _ _ _ _ Htok Hfound). cbv zeta.
    destruct (StringErr _ _) as [e|key] eqn:Hkey; [done|].
    destruct (Put key _ _) as [e|s'] eqn:Hput; [done|].
    intros [= <-]. exists key. split; [done|]. split; [done|].
    rewrite Hput. by destruct (AllowInsecureLoginAfterConfirm c).
Qed.


(** *** The invariant of the account *)

Lemma account_step_invariant c a a' :
  account_step S not_confirmed c a a' → confirm_invariant a'.
Proof.
  intros [fuel w w' a1 a2 Hguard Hu Hw' Hu'|r w w' a1 a2 Htok Hfound Hw' Hu'].
  - destruct (afterRegister_user _ _ _ _ _ Hu Hw') as (token & rs' & _ & Hu2).
    rewrite Hu' in Hu2. injection Hu2 as ->.
    intros Hconf. exfalso. apply Hguard. revert Hconf.
    unfold tokened. by rewrite lookup_insert_ne.
  - rewrite (confirmHandler_user _ _ _ _ _ Htok Hfound Hw') in Hu'.
    injection Hu' as <-. intros _. unfold redeemed.
    by rewrite lookup_insert_ne, lookup_insert_eq.
Qed.

(** When the hook runs only on accounts that are not confirmed, the
    invariant [confirmed == true] implies [confirmToken == ""] holds of
    every account state reached from a freshly created account by runs of
    the registration hook and of the confirmation handler. *)
Lemma invariant_when_the_hook_meets_no_confirmed_account c a0 a :
  fresh_account a0 →
  rtc (account_step S not_confirmed c) a0 a →
  confirm_invariant a.
Proof.
  intros [Hfresh _] Hreach. destruct (rtc_inv_r _ _ Hreach) as [->|(b & _ & Hstep)].
  - intros Hconf. rewrite Hfresh in Hconf. discriminate Hconf.
  - exact (account_step_invariant _ _ _ Hstep).
Qed.
End Callbacks.

(** * Properties that rest on the storer's contract *)

Section Lawful.
Context `{!GoLib} {S : Type} `{!ConfirmStorer S} `{!StorerLaws S}.

Implicit Types (c : Config) (w : World S) (u : gmap string Value).

Local Arguments ToUpper : simpl never.

(** The handler, when no account holds the token. *)
Lemma confirmHandler_not_found c r w :
  FormValue r FormValueConfirm ≠ "" →
  (∀ key u, accounts (ctxStorer w) !! key = Some u →
            u !! StoreConfirmToken ≠
            Some (VString (ToUpper (FormValue r FormValueConfirm)))) →
  confirmHandler c r w =
  Err (ErrAndRedirect "/" "confirm: token not found")
      (record_call (CallConfirmUser (ToUpper (FormValue r FormValueConfirm))) w).
Proof.
  intros Htok Hnone. unfold confirmHandler.
  destruct (len (FormValue r FormValueConfirm) =? 0) eqn:E;
    [by apply len_eq_0 in E|].
  unfold mbind at 1. unfold M_bind at 1. unfold Storer_ConfirmUser at 1.
  rewrite (ConfirmUser_missing _ _ Hnone).
  destruct (decide (ErrUserNotFound = ErrUserNotFound)); done.
Qed.

(** Once redeemed, a token that one account held is held by none. *)
Lemma redeemed_token_gone c token user key s s' :
  token ≠ "" →
  PrimaryID c ≠ StoreConfirmToken →
  filed_by_id c (accounts s) →
  token_unique token (accounts s) →
  ConfirmUser token s = inr user →
  StringErr (Some (redeemed user)) (PrimaryID c) = inr key →
  Put key (redeemed user) s = inr s' →
  ∀ k u, accounts s' !! k = Some u →
         u !! StoreConfirmToken ≠ Some (VString token).
Proof.
  intros Htok Hid Hfiled Huniq Hfound Hkey Hput k u Hk.
  destruct (ConfirmUser_sound _ _ _ Hfound) as (k0 & Hk0 & Hholds).
  assert (key = k0) as ->.
  { pose proof (Hfiled _ _ Hk0) as Hfile. revert Hkey.
    unfold StringErr, redeemed. simpl.
    destruct (decide (PrimaryID c = StoreConfirmed)) as [->|Hne].
    - by rewrite lookup_insert_eq.
    - rewrite lookup_insert_ne by done. rewrite lookup_insert_ne by done.
      rewrite Hfile. by intros [= ->]. }
  rewrite (Put_accounts _ _ _ _ Hput) in Hk.
  destruct (decide (k = k0)) as [->|Hne].
  - rewrite lookup_insert_eq in Hk. injection Hk as <-.
    unfold redeemed. rewrite lookup_insert_ne by done.
    rewrite lookup_insert_eq. by intros [= <-].
  - rewrite lookup_insert_ne in Hk by done.
    intros Hu. apply Hne. exact (Huniq _ _ _ _ Hk Hk0 Hu Hholds).
Qed.

(** C4 (amended). When every account is filed under its own identity key
    and at most one account holds the token, a run of the handler that
    redeems the token is followed, on the same token, by the not-found
    outcome: the handler answers with the error that redirects to the site
    root, and the storer, its accounts and the account in context are
    as the first run left them; no redirect to the success path is written
    and nothing is put in the session. *)
Theorem C4_redeemed_token_is_not_found c r w w1 :
  PrimaryID c ≠ StoreConfirmToken →
  filed_by_id c (accounts (ctxStorer w)) →
  token_unique (ToUpper (FormValue r FormValueConfirm)) (accounts (ctxStorer w)) →
  confirmHandler c r w = Ok tt w1 →
  ∃ w2,
    confirmHandler c r w1 = Err (ErrAndRedirect "/" "confirm: token not found") w2 ∧
    ctxStorer w2 = ctxStorer w1 ∧
    accounts (ctxStorer w2) = accounts (ctxStorer w1) ∧
    ctxUser w2 = ctxUser w1 ∧
    Redirects w2 = Redirects w1 ∧
    SessionPuts w2 = SessionPuts w1 ∧
    StorerCalls w2 = StorerCalls w1 ++
      [CallConfirmUser (ToUpper (FormValue r FormValueConfirm))].
Proof.
  intros Hid Hfiled Huniq Hrun.
  destruct (confirmHandler_Ok_inv _ _ _ _ Hrun)
    as (Htok & user & key & Hfound & Hkey & Hput).
  assert (Hgone : ∀ k u, accounts (ctxStorer w1) !! k = Some u →
            u !! StoreConfirmToken ≠
            Some (VString (ToUpper (FormValue r FormValueConfirm)))).
  { eapply redeemed_token_gone; eauto using ToUpper_nonempty. }
  rewrite (confirmHandler_not_found c r w1 Htok Hgone).
  eexists. split; [reflexivity|]. done.
Qed.

End Lawful.

(** * The storer in memory keeps the contract *)

Lemma MemStore_find_Some token m kv :
  List.find (holds_token token) (map_to_list (Users m)) = Some kv →
  Users m !! kv.1 = Some kv.2 ∧
  kv.2 !! StoreConfirmToken = Some (VString token).
Proof.
  intros Hfind. apply List.find_some in Hfind as [Hin Hholds]. split.
  - apply elem_of_map_to_list, list_elem_of_In. by destruct kv.
  - by apply bool_decide_eq_true in Hholds.
Qed.

Lemma MemStore_find_None token m key u :
  List.find (holds_token token) (map_to_list (Users m)) = None →
  Users m !! key = Some u →
  u !! StoreConfirmToken ≠ Some (VString token).
Proof.
  intros Hfind Hkey.
  apply elem_of_map_to_list, list_elem_of_In in Hkey.
  pose proof (List.find_none _ _ Hfind _ Hkey) as Hholds.
  by apply bool_decide_eq_false in Hholds.
Qed.

Lemma MemStore_sound (m : MemStore) token u :
  ConfirmUser token m = inr u →
  ∃ key, Users m !! key = Some u ∧
         u !! StoreConfirmToken = Some (VString token).
Proof.
  unfold ConfirmUser, MemStore_storer.
  destruct (List.find _ _) as [kv|] eqn:Hfind; [|discriminate].
  intros [= <-]. exists kv.1. by apply MemStore_find_Some.
Qed.

Lemma MemStore_complete (m : MemStore) token key u :
  Users m !! key = Some u →
  u !! StoreConfirmToken = Some (VString token) →
  ∃ u', ConfirmUser token m = inr u'.
Proof.
  intros Hkey Hholds. unfold ConfirmUser, MemStore_storer.
  destruct (List.find _ _) as [kv|] eqn:Hfind; [by eexists|].
  by destruct (MemStore_find_None _ _ _ _ Hfind Hkey).
Qed.

Lemma MemStore_missing (m : MemStore) token :
  (∀ key u, Users m !! key = Some u →
            u !! StoreConfirmToken ≠ Some (VString token)) →
  ConfirmUser token m = inl ErrUserNotFound.
Proof.
  intros Hnone. unfold ConfirmUser, MemStore_storer.
  destruct (List.find _ _) as [kv|] eqn:Hfind; [|done].
  destruct (MemStore_find_Some _ _ _ Hfind) as [Hkey Hholds].
  by destruct (Hnone _ _ Hkey).
Qed.

Lemma MemStore_Put (m : MemStore) key u m' :
  Put key u m = inr m' → Users m' = <[key := u]> (Users m).
Proof.
  unfold Put, MemStore_storer. destruct (PutErr m); [discriminate|].
  by intros [= <-].
Qed.

Global Instance MemStore_laws : StorerLaws MemStore := {|
  accounts := Users;
  ConfirmUser_sound := MemStore_sound;
  ConfirmUser_complete := MemStore_complete;
  ConfirmUser_missing := MemStore_missing;
  Put_accounts := MemStore_Put
|}.

(** * Concrete runs *)

#[local] Existing Instance plain_GoLib.

(** ** The generator *)

Lemma C1_pass_witness :
  ∃ v' r1,
    loop_body pass_51 (const_source 0) = Ok v' r1 ∧
    lv_i v' = -1 ∧ lv_b v' = [letter 51].
Proof.
  assert (Hi : 0 ≤ lv_i pass_51 < Z.of_nat (length (lv_b pass_51)))
    by (vm_compute; split; [discriminate|reflexivity]).
  destruct (C1_values_52_to_63_are_rejected pass_51 (const_source 0) Hi)
    as [(cache & remain & r1 & v' & Hre & Hbody & _ & _ & _ & Hacc & _) _].
  injection Hre as <- <- <-.
  destruct (Hacc eq_refl) as (Hi' & _ & Hb').
  eexists v', _. split; [exact Hbody|]. split; [exact Hi'|exact Hb'].
Defined.

(** The value 52 is rejected, although it is neither 62 nor 63: the pass
    writes nothing and the index stays; the alphabet has 52 characters and
    no digit. *)
Lemma C1_counterexample :
  letterIdx (lv_cache pass_52) = 52 ∧
  accepted 52 = false ∧
  loop_body pass_52 (const_source 0) =
    Ok {| lv_i := 0; lv_cache := 0; lv_remain := 9; lv_b := [zero] |}
       (const_source 0) ∧
  52 ≠ 62 ∧ 52 ≠ 63 ∧
  len letterBytes = 52 ∧
  string_existsb is_digit letterBytes = false.
Proof. repeat split; try reflexivity; discriminate. Qed.



(** ** The gate *)

Lemma C8_gate_witness :
  beforeGet (demo_world (Some (redeemed alice_pending)) one_pending (const_source 0))
    = (InterruptNone, None) ∧
  beforeGet (demo_world (Some alice) one_pending (const_source 0))
    = (InterruptAccountNotConfirmed, None) ∧
  beforeGet (demo_world (Some {[ StoreConfirmed := VString "yes" ]}) one_pending
               (const_source 0))
    = (InterruptNone, Some (AttributeErr "confirmed" TBool (Some TString))).
Proof.
  split; [|split].
  - exact (proj1 (C8_gate_follows_confirmed
                    (demo_world (Some (redeemed alice_pending)) one_pending
                       (const_source 0))) eq_refl).
  - exact (proj1 (proj2 (C8_gate_follows_confirmed
                           (demo_world (Some alice) one_pending (const_source 0))))
             eq_refl).
  - destruct (proj2 (proj2 (C8_gate_follows_confirmed
                (demo_world (Some {[ StoreConfirmed := VString "yes" ]}) one_pending
                   (const_source 0))))) as (e & He & Hgate).
    + intros b. vm_compute. discriminate.
    + rewrite Hgate. vm_compute in He. injection He as <-. reflexivity.
Defined.

(** ** The confirmation handler *)

Lemma C7_empty_token_witness :
  confirmHandler demo_cfg {| Form := ∅ |}
    (demo_world None one_pending (const_source 0))
  = Err (ClientDataErr "cnf") (demo_world None one_pending (const_source 0)).
Proof.
  exact (proj1 (proj2 (C7_empty_token_is_client_error demo_cfg {| Form := ∅ |}
                         (demo_world None one_pending (const_source 0)) eq_refl))).
Defined.

Lemma C2_redemption_witness :
  ∃ w',
    confirmHandler demo_cfg (demo_request "aaaaaa")
      (demo_world None one_pending (const_source 0)) = Ok tt w' ∧
    ctxUser w' = Some (redeemed alice_pending) ∧
    Users (ctxStorer w') !! "alice" = Some (redeemed alice_pending) ∧
    Redirects w' = [success_redirect demo_cfg].
Proof.
  destruct (C2_redemption_confirms_and_redirects demo_cfg (demo_request "aaaaaa")
              (demo_world None one_pending (const_source 0))
              alice_pending "alice"
              {| Users := <["alice" := redeemed alice_pending]> (Users one_pending);
                 PutErr := None |})
    as (w' & Hrun & Hu & _ & _ & Hs & _ & Hred & _).
  - vm_compute. discriminate.
  - vm_compute. reflexivity.
  - vm_compute. reflexivity.
  - vm_compute. reflexivity.
  - exists w'. split; [exact Hrun|]. split; [exact Hu|].
    split; [rewrite Hs; apply lookup_insert_eq|exact Hred].
Defined.

(** The token parameter is not empty and the storer answers it with
    Alice's account, but the storer's write fails: the handler returns the
    storer's error, writes no redirect, and the stored account is neither
    confirmed nor without its token. *)
Lemma C2_counterexample :
  FormValue (demo_request "aaaaaa") FormValueConfirm = "aaaaaa" ∧
  ConfirmUser (ToUpper "aaaaaa") one_pending_write_fails = inr alice_pending ∧
  ∃ w',
    confirmHandler demo_cfg (demo_request "aaaaaa")
      (demo_world None one_pending_write_fails (const_source 0))
    = Err (ErrExternal "disk full") w' ∧
    Redirects w' = [] ∧
    ctxStorer w' = one_pending_write_fails ∧
    Users (ctxStorer w') !! "alice" ≫= (.!! StoreConfirmed) = Some (VBool false) ∧
    Users (ctxStorer w') !! "alice" ≫= (.!! StoreConfirmToken)
      = Some (VString "AAAAAA").
Proof.
  split; [reflexivity|]. split; [vm_compute; reflexivity|].
  eexists. split; [vm_compute; reflexivity|].
  repeat split; vm_compute; reflexivity.
Qed.

(** ** The registration hook *)

(** The world in which Alice has just been created. *)
Lemma register_alice_world :
  ∃ w',
    afterRegister 20 demo_cfg (demo_world (Some alice) two_fresh (const_source 0))
      = Ok tt w' ∧
    ctxUser w' = Some alice_pending ∧
    Users (ctxStorer w') = <["alice" := alice_pending]> (Users two_fresh) ∧
    LogWriter w' = [("confirm: Failed to send e-mail: %v", ErrExternal "smtp down")].
Proof.
  eexists. split; [vm_compute; reflexivity|].
  repeat split; vm_compute; reflexivity.
Qed.

Lemma C9_failing_mailer_witness :
  ∃ w0,
    afterRegister 20 (with_Mailer (λ _, None) demo_cfg)
      (demo_world (Some alice) two_fresh (const_source 0)) = Ok tt w0 ∧
    LogWriter w0 = [] ∧
    afterRegister 20 demo_cfg (demo_world (Some alice) two_fresh (const_source 0))
    = Ok tt (record_log "confirm: Failed to send e-mail: %v"
               (ErrExternal "smtp down") w0).
Proof.
  destruct (C9_delivery_failure_is_only_logged 20 demo_cfg
              (demo_world (Some alice) two_fresh (const_source 0))
              alice "aaaaaa" {| rs_draws := fun _ => 0; rs_pos := 1 |}
              "alice"
              {| Users := <["alice" := alice_pending]> (Users two_fresh);
                 PutErr := None |}
              "alice@example.com")
    as [(w0 & Hrun0 & Hrun) _].
  - reflexivity.
  - vm_compute. reflexivity.
  - vm_compute. reflexivity.
  - vm_compute. reflexivity.
  - vm_compute. reflexivity.
  - exists w0. split; [exact Hrun0|].
    assert (Hw0 : Ok tt w0 =
                  afterRegister 20 (with_Mailer (λ _, None) demo_cfg)
                    (demo_world (Some alice) two_fresh (const_source 0)))
      by (symmetry; exact Hrun0).
    vm_compute in Hw0. injection Hw0 as ->.
    split; [reflexivity|]. vm_compute. reflexivity.
Defined.

Lemma C10_frame_witness :
  ∃ w' u',
    world_of (afterRegister 20 demo_cfg
                (demo_world (Some alice) two_fresh (const_source 0))) = Some w' ∧
    ctxUser w' = Some u' ∧
    u' !! StoreConfirmed = Some (VBool false) ∧
    u' !! StoreEmail = Some (VString "alice@example.com") ∧
    u' !! "username" = Some (VString "alice").
Proof.
  assert (Hw : ∃ w', world_of (afterRegister 20 demo_cfg
                        (demo_world (Some alice) two_fresh (const_source 0)))
                     = Some w')
    by (eexists; vm_compute; reflexivity).
  destruct Hw as [w' Hw'].
  destruct (proj2 (C10_hook_writes_only_the_token 20 demo_cfg
                     (demo_world (Some alice) two_fresh (const_source 0))
                     alice eq_refl) w' Hw')
    as (u' & Hu' & _ & Hconf & Hemail & Hid).
  exists w', u'. split; [exact Hw'|]. split; [exact Hu'|].
  split; [exact Hconf|]. split; [exact Hemail|].
  apply Hid. vm_compute. discriminate.
Defined.

(** ** The life of an account *)

(** Three steps of Alice's account: the hook, the handler, and the hook
    once more. *)
Lemma alice_registers guard :
  guard alice → account_step MemStore guard demo_cfg alice alice_pending.
Proof.
  intros Hguard.
  eapply (step_register MemStore guard demo_cfg 20
            (demo_world (Some alice) two_fresh (const_source 0)));
    [exact Hguard|reflexivity|vm_compute; reflexivity|vm_compute; reflexivity].
Qed.

Lemma alice_confirms guard :
  account_step MemStore guard demo_cfg alice_pending (redeemed alice_pending).
Proof.
  eapply (step_confirm MemStore guard demo_cfg (demo_request "aAaAaA")
            (demo_world None one_pending (const_source 0)));
    [vm_compute; discriminate|vm_compute; reflexivity
    |vm_compute; reflexivity|vm_compute; reflexivity].
Qed.



Lemma guarded_lifecycle_run : confirm_invariant (redeemed alice_pending).
Proof.
  apply (invariant_when_the_hook_meets_no_confirmed_account (S := MemStore)
           demo_cfg alice).
  - split; [|left]; vm_compute; reflexivity.
  - eapply rtc_l; [apply alice_registers; vm_compute; discriminate|].
    eapply rtc_l; [apply alice_confirms|]. apply rtc_refl.
Defined.


(** ** Redeeming twice, and in another case *)

Lemma one_pending_filed : filed_by_id demo_cfg (accounts one_pending).
Proof.
  intros key u Hkey. change (accounts one_pending) with
    ({[ "alice" := alice_pending ]} : gmap string (gmap string Value)) in Hkey.
  apply lookup_singleton_Some in Hkey as [<- <-].
  vm_compute. reflexivity.
Qed.

Lemma one_pending_unique token : token_unique token (accounts one_pending).
Proof.
  intros k1 k2 u1 u2 H1 H2 _ _.
  change (accounts one_pending) with
    ({[ "alice" := alice_pending ]} : gmap string (gmap string Value)) in H1, H2.
  apply lookup_singleton_Some in H1 as [<- _].
  apply lookup_singleton_Some in H2 as [<- _]. reflexivity.
Qed.

Lemma C4_second_redemption_witness :
  ∃ w1 w2,
    confirmHandler demo_cfg (demo_request "aaaaaa")
      (demo_world None one_pending (const_source 0)) = Ok tt w1 ∧
    confirmHandler demo_cfg (demo_request "aaaaaa") w1
      = Err (ErrAndRedirect "/" "confirm: token not found") w2 ∧
    ctxStorer w2 = ctxStorer w1 ∧ ctxUser w2 = ctxUser w1.
Proof.
  assert (Hrun : ∃ w1, confirmHandler demo_cfg (demo_request "aaaaaa")
                         (demo_world None one_pending (const_source 0)) = Ok tt w1)
    by (eexists; vm_compute; reflexivity).
  destruct Hrun as [w1 Hrun].
  destruct (C4_redeemed_token_is_not_found demo_cfg (demo_request "aaaaaa")
              (demo_world None one_pending (const_source 0)) w1)
    as (w2 & Hrun2 & Hs & _ & Hu & _).
  - vm_compute. discriminate.
  - exact one_pending_filed.
  - apply one_pending_unique.
  - exact Hrun.
  - exists w1, w2. split; [exact Hrun|]. split; [exact Hrun2|]. split; [exact Hs|exact Hu].
Defined.

(** Alice and Bob register one after the other on a source that draws the
    same value twice, so both hold the token AAAAAA.  The first redemption
    of the token confirms Alice; the second redemption of the same token
    does not end in the not-found outcome: it returns no error, redirects
    to the success path, and confirms Bob. *)
Lemma C4_counterexample :
  ∃ w1 w2 w3 w4,
    afterRegister 20 demo_cfg (demo_world (Some alice) two_fresh (const_source 0))
      = Ok tt w1 ∧
    afterRegister 20 demo_cfg (set_ctxUser (Some bob) w1) = Ok tt w2 ∧
    Users (ctxStorer w2) !! "alice" ≫= (.!! StoreConfirmToken)
      = Some (VString "AAAAAA") ∧
    Users (ctxStorer w2) !! "bob" ≫= (.!! StoreConfirmToken)
      = Some (VString "AAAAAA") ∧
    confirmHandler demo_cfg (demo_request "aaaaaa") w2 = Ok tt w3 ∧
    Users (ctxStorer w3) !! "alice" ≫= (.!! StoreConfirmed) = Some (VBool true) ∧
    Users (ctxStorer w3) !! "bob" ≫= (.!! StoreConfirmed) = Some (VBool false) ∧
    confirmHandler demo_cfg (demo_request "aaaaaa") w3 = Ok tt w4 ∧
    Users (ctxStorer w4) !! "bob" ≫= (.!! StoreConfirmed) = Some (VBool true) ∧
    Redirects w4 = [success_redirect demo_cfg; success_redirect demo_cfg].
Proof.
  eexists _, _, _, _.
  split; [vm_compute; reflexivity|].
  split; [vm_compute; reflexivity|].
  split; [vm_compute; reflexivity|].
  split; [vm_compute; reflexivity|].
  split; [vm_compute; reflexivity|].
  split; [vm_compute; reflexivity|].
  split; [vm_compute; reflexivity|].
  split; [vm_compute; reflexivity|].
  split; vm_compute; reflexivity.
Qed.


(** * The rest of the module *)

(** ** Storage requirements, the callback on a loaded user, and
       initialization *)

(** [Storage]: the fields the module requires of the storer, with their
    kinds.  The map literal is filled in the order of its lines. *)
Definition Storage (c : Config) : gmap string DataType :=
  <[StoreConfirmed := TBool]>
    (<[StoreConfirmToken := TString]>
       (<[StoreEmail := TString]>
          (<[PrimaryID c := TString]> ∅))).

(** The callback [Initialize] registers after [authboss.EventGetUser]:
    [_, err := c.beforeGet(ctx); return err]. *)
Definition afterGetUser {S : Type} (w : World S) : option Error :=
  (beforeGet w).2.

(** Modelled from the spec: the events of the host's callback bus are
    declared in the authboss package; [Initialize] names three of them. *)
Inductive Event := EventRegister | EventAuth | EventGetUser.

(** The three functions [Initialize] hands to the callback bus. *)
Inductive Callback := CbAfterGetUser | CbBeforeGet | CbAfterRegister.

(** A call of [c.Callbacks.Before] or [c.Callbacks.After]. *)
Inductive Registration :=
| RegBefore (e : Event) (f : Callback)
| RegAfter (e : Event) (f : Callback).

(** What [Initialize] finds: whether a store maker is configured, whether
    the configured storer is a [ConfirmStorer], and what loading each of
    the two e-mail templates answers. *)
Record Setup := {
  su_StoreMaker : bool;
  su_ConfirmStorer : bool;
  su_LoadTemplates : string → option Error
}.

(** What [Initialize] changes: the templates the module holds, the template
    files it asked for, and the registrations on the callback bus. *)
Record Module := {
  emailHTMLTemplates : option string;
  emailTextTemplates : option string;
  TemplateLoads : list string;
  Callbacks : list Registration
}.

(** Modelled from the spec: [response.LoadTemplates] is in the package
    [internal/response]; it parses the named template file and answers
    with the templates or with an error. *)
Definition LoadTemplates (su : Setup) (file : string)
    : M Module (option string * option Error) := fun m =>
  let m' := {| emailHTMLTemplates := emailHTMLTemplates m;
               emailTextTemplates := emailTextTemplates m;
               TemplateLoads := TemplateLoads m ++ [file];
               Callbacks := Callbacks m |} in
  match su_LoadTemplates su file with
  | Some e => Ok (None, Some e) m'
  | None => Ok (Some file, None) m'
  end.

Definition set_emailHTMLTemplates (t : option string) : M Module unit := fun m =>
  Ok tt {| emailHTMLTemplates := t;
           emailTextTemplates := emailTextTemplates m;
           TemplateLoads := TemplateLoads m;
           Callbacks := Callbacks m |}.

Definition set_emailTextTemplates (t : option string) : M Module unit := fun m =>
  Ok tt {| emailHTMLTemplates := emailHTMLTemplates m;
           emailTextTemplates := t;
           TemplateLoads := TemplateLoads m;
           Callbacks := Callbacks m |}.

Definition register (g : Registration) : M Module unit := fun m =>
  Ok tt {| emailHTMLTemplates := emailHTMLTemplates m;
           emailTextTemplates := emailTextTemplates m;
           TemplateLoads := TemplateLoads m;
           Callbacks := Callbacks m ++ [g] |}.

(** Initialize the module *)
Definition Initialize (su : Setup) : M Module unit :=
  if negb (su_StoreMaker su) && negb (su_ConfirmStorer su)
  then throw (ErrExternal "confirm: Need a ConfirmStorer")
  else
    '(t, err) ← LoadTemplates su tplConfirmHTML;
    set_emailHTMLTemplates t;;
    match err with
    | Some e => throw e
    | None =>
        '(t, err) ← LoadTemplates su tplConfirmText;
        set_emailTextTemplates t;;
        match err with
        | Some e => throw e
        | None =>
            register (RegAfter EventGetUser CbAfterGetUser);;
            register (RegBefore EventAuth CbBeforeGet);;
            register (RegAfter EventRegister CbAfterRegister)
        end
    end.

(** ** Further notions *)

(** The configuration [c] with or without a mail maker. *)
Definition with_MailMaker (b : bool) (c : Config) : Config :=
  {| PrimaryID := PrimaryID c; MountPath := MountPath c; RootURL := RootURL c;
     EmailFrom := EmailFrom c; EmailSubjectPrefix := EmailSubjectPrefix c;
     RegisterOKPath := RegisterOKPath c;
     AllowInsecureLoginAfterConfirm := AllowInsecureLoginAfterConfirm c;
     MailMaker_set := b; Mailer := Mailer c |}.

(** The mail job [confirmEmail] hands over for an address and a token. *)
Definition confirm_job `{!GoLib} (c : Config) (to token : string) : MailJob :=
  {| mj_email := {| To := [to]; From := EmailFrom c;
                    Subject := EmailSubjectPrefix c +:+ "Confirm New Account" |};
     mj_htmlTemplate := tplConfirmHTML;
     mj_textTemplate := tplConfirmText;
     mj_data := RootURL c +:+ path_Join (MountPath c) "confirm" +:+ "?"
                +:+ url_QueryEscape FormValueConfirm +:+ "="
                +:+ url_QueryEscape token |}.

(** An account holds, in every field [Storage] names, a value of the kind
    [Storage] gives the field. *)
Definition conforms (c : Config) (u : gmap string Value) : Prop :=
  ∀ k d v, Storage c !! k = Some d → u !! k = Some v → kind_of v = d.

(** How many of the values [l] the loop examines before its index, started
    at [i], is negative. *)
Fixpoint examined (l : list Z) (i : Z) : nat :=
  match l with
  | [] => 0
  | x :: l' =>
      if 0 <=? i then S (examined l' (if accepted x then i - 1 else i)) else 0
  end.

(** Two sources stand at the same draw and their draws agree on the low 60
    bits. *)
Definition same_low_bits (r1 r2 : RandSource) : Prop :=
  rs_pos r1 = rs_pos r2 ∧
  ∀ k, rs_draws r1 k mod 2 ^ 60 = rs_draws r2 k mod 2 ^ 60.

(** What a run of the generator answers, the source left aside. *)
Definition answer {A} (o : Outcome RandSource A) : Outcome unit A :=
  match o with
  | Ok a _ => Ok a tt
  | Err e _ => Err e tt
  | Panic => Panic
  | OutOfFuel => OutOfFuel
  end.

(** Two caches agree on their [bits] low bits. *)
Definition agree (bits x y : Z) : Prop :=
  ∀ j, 0 ≤ j < bits → Z.testbit x j = Z.testbit y j.

(** Two states of the loop differ at most in bits of the cache the loop
    will not look at. *)
Definition same_pass (v1 v2 : LoopVars) (r1 r2 : RandSource) : Prop :=
  lv_i v1 = lv_i v2 ∧ lv_b v1 = lv_b v2 ∧ lv_remain v1 = lv_remain v2 ∧
  0 ≤ lv_remain v1 ≤ 10 ∧
  agree (letterIdxBits * lv_remain v1) (lv_cache v1) (lv_cache v2) ∧
  same_low_bits r1 r2.

(** The configuration that lets a confirmed user in at once. *)
Definition login_cfg : Config := demo_config true true failing_mailer.

(** The world in which Alice's account was just created, and the world of
    a request that arrives at a store. *)
Definition alice_created : World MemStore :=
  demo_world (Some alice) two_fresh (const_source 0).

Definition request_world (store : MemStore) : World MemStore :=
  demo_world None store (const_source 0).

#[local] Remove Hints plain_GoLib : typeclass_instances.

(** ** The generator: outcomes, bits used, draws taken *)

Lemma refill_cases v r :
  (lv_remain v = 0 ∧
   refill v r = Ok (Int63_value r (rs_pos r), letterIdxMax)
                   {| rs_draws := rs_draws r; rs_pos := S (rs_pos r) |}) ∨
  (lv_remain v ≠ 0 ∧ refill v r = Ok (lv_cache v, lv_remain v) r).
Proof.
  unfold refill. destruct (Z.eqb_spec (lv_remain v) 0); [left|right]; done.
Qed.

Lemma loop_body_source v r v' r' :
  loop_body v r = Ok v' r' →
  rs_draws r' = rs_draws r ∧ (rs_pos r ≤ rs_pos r' ≤ S (rs_pos r))%nat ∧
  lv_remain v' = (if lv_remain v =? 0 then letterIdxMax else lv_remain v) - 1.
Proof.
  unfold loop_body.
  destruct (refill_cases v r) as [[Hrem Hre]|[Hrem Hre]];
    rewrite (bind_Ok _ _ _ _ _ Hre);
    (destruct (Z.eqb_spec (lv_remain v) 0); [|]; try lia);
    (destruct (accepted _);
     [destruct (String.get _ _); [|discriminate];
      destruct (_ && _); [|discriminate]|]);
    intros [= <- <-]; cbn [rs_draws rs_pos lv_remain]; (split; [done|]);
    (split; [lia|done]).
Qed.

Lemma loop_source : ∀ fuel v r v' r',
  loop fuel v r = Ok v' r' →
  rs_draws r' = rs_draws r ∧ (rs_pos r ≤ rs_pos r')%nat.
Proof.
  induction fuel as [|fuel IH]; intros v r v' r'; [discriminate|].
  rewrite loop_S. destruct (0 <=? lv_i v).
  - unfold mbind, M_bind.
    destruct (loop_body v r) as [v1 r1| | |] eqn:Hb; try discriminate.
    intros Hl. apply IH in Hl as [Hd Hp].
    apply loop_body_source in Hb as (Hd1 & Hp1 & _).
    split; [congruence|lia].
  - intros [= <- <-]. done.
Qed.

Lemma loop_in_range : ∀ fuel v r,
  lv_i v < Z.of_nat (length (lv_b v)) →
  match loop fuel v r with
  | Ok v' r' =>
      lv_i v' < 0 ∧ length (lv_b v') = length (lv_b v) ∧
      rs_draws r' = rs_draws r ∧ (rs_pos r ≤ rs_pos r')%nat
  | Err _ _ => False
  | Panic => False
  | OutOfFuel => True
  end.
Proof.
  induction fuel as [|fuel IH]; intros v r Hi; [done|].
  rewrite loop_S. destruct (Z.leb_spec 0 (lv_i v)) as [Hi0|Hi0].
  - destruct (loop_body_Ok v r) as (v1 & r1 & Hb & Hi1 & Hlen); [lia|].
    rewrite (bind_Ok _ _ _ _ _ Hb).
    apply loop_body_source in Hb as (Hd & Hp & _).
    specialize (IH v1 r1). destruct (loop fuel v1 r1) as [v' r'| | |]; try done;
      try (apply IH; lia).
    destruct IH as (Hneg & Hlen' & Hd' & Hp'); [lia|].
    split; [done|]. split; [congruence|]. split; [congruence|lia].
  - unfold mret, M_ret. split; [done|]. split; [done|]. split; [done|lia].
Qed.

(** X1. The loop of the generator never indexes out of range.  Started
    with an index below the length of its buffer, as the generator starts
    it, every pass reads [letterBytes] and writes the buffer in range: a
    run of the loop does not panic and returns no error; it ends with a
    negative index, the buffer at its length, and the sequence of future
    draws as it was.  The generator panics on a negative length, and a call
    that returns gives a string of the length asked for and has taken at
    least one draw.  (Nothing is said of a length the runtime cannot
    allocate: memory is not bounded in the model.) *)
Theorem generator_loop_never_indexes_out_of_range fuel n r :
  (n < 0 → RandStringBytesMaskImpr fuel n r = Panic) ∧
  (∀ v, lv_i v < Z.of_nat (length (lv_b v)) →
     match loop fuel v r with
     | Ok v' r' =>
         lv_i v' < 0 ∧ length (lv_b v') = length (lv_b v) ∧
         rs_draws r' = rs_draws r ∧ (rs_pos r ≤ rs_pos r')%nat
     | Err _ _ => False
     | Panic => False
     | OutOfFuel => True
     end) ∧
  (∀ s r', RandStringBytesMaskImpr fuel n r = Ok s r' →
     0 ≤ n ∧ len s = n ∧
     rs_draws r' = rs_draws r ∧ (rs_pos r < rs_pos r')%nat).
Proof.
  split; [|split].
  - intros Hn. unfold RandStringBytesMaskImpr.
    destruct (Z.ltb_spec n 0); [done|lia].
  - intros v Hi. by apply loop_in_range.
  - intros s r' Hrun.
    destruct (RandStringBytesMaskImpr_partial _ _ _ _ _ Hrun) as (Hn & Hlen & _).
    split; [done|]. split; [done|].
    revert Hrun. unfold RandStringBytesMaskImpr.
    destruct (n <? 0); [discriminate|].
    unfold mbind, M_bind. cbn [Int63].
    match goal with |- context [loop fuel ?v ?r] =>
      destruct (loop fuel v r) as [v' r1| | |] eqn:Hl; try discriminate end.
    intros [= _ <-]. apply loop_source in Hl as [Hd Hp].
    cbn [rs_draws rs_pos] in *. split; [done|lia].
Qed.

Lemma agree_mod x y :
  x mod 2 ^ 60 = y mod 2 ^ 60 → agree 60 (x mod 2 ^ 63) (y mod 2 ^ 63).
Proof.
  intros Heq j Hj.
  rewrite !Z.mod_pow2_bits_low by lia.
  rewrite <- (Z.mod_pow2_bits_low x 60 j), <- (Z.mod_pow2_bits_low y 60 j) by lia.
  by rewrite Heq.
Qed.

Lemma agree_letterIdx bits x y :
  6 ≤ bits → agree bits x y → letterIdx x = letterIdx y.
Proof.
  intros Hbits Hxy. unfold letterIdx. rewrite letterIdxMask_val.
  apply Z.bits_inj'. intros j Hj. rewrite !Z.land_spec.
  destruct (Z.lt_ge_cases j 6) as [Hlt|Hge].
  - rewrite (Hxy j) by lia. reflexivity.
  - change 63 with (Z.ones 6). rewrite Z.ones_spec_high by lia.
    by rewrite !andb_false_r.
Qed.

Lemma agree_shiftr bits x y :
  agree (bits + 6) x y → agree bits (Z.shiftr x 6) (Z.shiftr y 6).
Proof.
  intros Hxy j Hj. rewrite !Z.shiftr_spec by lia. apply Hxy. lia.
Qed.

Lemma same_pass_refill v1 v2 r1 r2 :
  same_pass v1 v2 r1 r2 →
  ∃ c1 c2 remain r1' r2',
    refill v1 r1 = Ok (c1, remain) r1' ∧ refill v2 r2 = Ok (c2, remain) r2' ∧
    1 ≤ remain ≤ 10 ∧ agree (letterIdxBits * remain) c1 c2 ∧
    same_low_bits r1' r2'.
Proof.
  intros (Hi & Hb & Hrem & Hrange & Hcache & Hpos & Hdraws).
  destruct (refill_cases v1 r1) as [[Hrem1 ->]|[Hrem1 ->]];
    destruct (refill_cases v2 r2) as [[Hrem2 ->]|[Hrem2 ->]]; try lia.
  - eexists _, _, _, _, _. split; [reflexivity|].
    rewrite <- Hpos. split; [reflexivity|].
    change letterIdxMax with 10. split; [lia|]. split.
    + apply agree_mod, Hdraws.
    + split; [cbn; by rewrite Hpos|exact Hdraws].
  - eexists _, _, _, _, _. split; [reflexivity|].
    rewrite <- Hrem. split; [reflexivity|]. split; [lia|].
    split; [exact Hcache|]. split; [exact Hpos|exact Hdraws].
Qed.

Lemma same_pass_body v1 v2 r1 r2 :
  same_pass v1 v2 r1 r2 →
  match loop_body v1 r1, loop_body v2 r2 with
  | Ok v1' r1', Ok v2' r2' => same_pass v1' v2' r1' r2'
  | Panic, Panic => True
  | _, _ => False
  end.
Proof.
  intros Hsame.
  destruct (same_pass_refill _ _ _ _ Hsame)
    as (c1 & c2 & remain & r1' & r2' & Hre1 & Hre2 & Hrem & Hc & Hr).
  destruct Hsame as (Hi & Hb & _).
  unfold loop_body. rewrite (bind_Ok _ _ _ _ _ Hre1), (bind_Ok _ _ _ _ _ Hre2).
  change letterIdxBits with 6 in *.
  rewrite <- (agree_letterIdx (6 * remain) c1 c2) by (lia || done).
  rewrite <- Hi, <- Hb.
  assert (Hnext : agree (6 * (remain - 1)) (Z.shiftr c1 6) (Z.shiftr c2 6)).
  { apply agree_shiftr. intros j Hj. apply Hc. lia. }
  assert (Hr' : same_low_bits r1' r2') by exact Hr.
  destruct (accepted (letterIdx c1)).
  - destruct (String.get _ letterBytes); [|done].
    destruct (_ && _); [|done].
    unfold mret, M_ret, same_pass. cbn [lv_i lv_b lv_remain lv_cache].
    change letterIdxBits with 6. split_and!; try done; lia.
  - unfold mret, M_ret, same_pass. cbn [lv_i lv_b lv_remain lv_cache].
    change letterIdxBits with 6. split_and!; try done; lia.
Qed.

Lemma same_pass_loop : ∀ fuel v1 v2 r1 r2,
  same_pass v1 v2 r1 r2 →
  match loop fuel v1 r1, loop fuel v2 r2 with
  | Ok v1' r1', Ok v2' r2' => lv_b v1' = lv_b v2' ∧ same_low_bits r1' r2'
  | Panic, Panic => True
  | OutOfFuel, OutOfFuel => True
  | _, _ => False
  end.
Proof.
  induction fuel as [|fuel IH]; intros v1 v2 r1 r2 Hsame; [done|].
  rewrite !loop_S. pose proof Hsame as (Hi & Hb & _ & _ & _ & Hr).
  rewrite <- Hi. destruct (0 <=? lv_i v1); [|done].
  pose proof (same_pass_body _ _ _ _ Hsame) as Hbody.
  unfold mbind, M_bind.
  destruct (loop_body v1 r1) as [v1' r1'| | |], (loop_body v2 r2) as [v2' r2'| | |];
    try done.
  by apply IH.
Qed.

(** X2. Only the low 60 bits of each draw matter: on two sources that
    stand at the same draw and whose draws agree on their low 60 bits, the
    generator answers alike, with the same string, or panics, or is still
    looping, on both. *)
Theorem generator_ignores_the_high_bits fuel n r1 r2 :
  same_low_bits r1 r2 →
  answer (RandStringBytesMaskImpr fuel n r1) =
  answer (RandStringBytesMaskImpr fuel n r2).
Proof.
  intros [Hpos Hdraws]. unfold RandStringBytesMaskImpr.
  destruct (n <? 0); [done|]. unfold mbind, M_bind. cbn [Int63].
  assert (Hinit : same_pass
            {| lv_i := n - 1; lv_cache := Int63_value r1 (rs_pos r1);
               lv_remain := letterIdxMax; lv_b := replicate (Z.to_nat n) zero |}
            {| lv_i := n - 1; lv_cache := Int63_value r2 (rs_pos r2);
               lv_remain := letterIdxMax; lv_b := replicate (Z.to_nat n) zero |}
            {| rs_draws := rs_draws r1; rs_pos := S (rs_pos r1) |}
            {| rs_draws := rs_draws r2; rs_pos := S (rs_pos r2) |}).
  { unfold same_pass, same_low_bits. cbn [lv_i lv_b lv_remain lv_cache rs_pos rs_draws].
    change letterIdxMax with 10. change letterIdxBits with 6.
    split_and!; try done; try lia.
    unfold Int63_value. rewrite Hpos. apply (agree_mod _ _ (Hdraws _)). }
  pose proof (same_pass_loop fuel _ _ _ _ Hinit) as Hloop.
  destruct (loop fuel _ _) as [v1' r1'| | |], (loop fuel _ _) as [v2' r2'| | |];
    try done.
  destruct Hloop as [-> _]. done.
Qed.

Lemma loop_examined r0 : ∀ d k v r,
  synced r0 k v r →
  lv_remain v ≤ 10 →
  -1 ≤ lv_i v < Z.of_nat (length (lv_b v)) →
  lv_i v + 1 ≤ Z.of_nat (length (List.filter accepted (chunk r0 <$> seq k d))) →
  ∃ v' r',
    loop (S (examined (chunk r0 <$> seq k d) (lv_i v))) v r = Ok v' r' ∧
    synced r0 (k + examined (chunk r0 <$> seq k d) (lv_i v)) v' r' ∧
    (examined (chunk r0 <$> seq k d) (lv_i v) = 0%nat → v' = v ∧ r' = r) ∧
    ((1 ≤ examined (chunk r0 <$> seq k d) (lv_i v))%nat → lv_remain v' ≤ 9).
Proof.
  induction d as [|d IH]; intros k v r Hs Hrem Hi Hn.
  - simpl in Hn. exists v, r. cbn [seq fmap list_fmap examined].
    rewrite loop_S. destruct (Z.leb_spec 0 (lv_i v)); [lia|].
    rewrite Nat.add_0_r. split_and!; try done. lia.
  - cbn [seq]. rewrite fmap_cons. cbn [examined].
    destruct (Z.leb_spec 0 (lv_i v)) as [Hi0|Hi0].
    + destruct (loop_body_synced r0 k v r Hs) as (v1 & r1 & Hb & Hs1 & _ & Hres); [lia|].
      pose proof (loop_body_source _ _ _ _ Hb) as (_ & _ & Hrem1).
      assert (Hrem1' : lv_remain v1 ≤ 9).
      { rewrite Hrem1. change letterIdxMax with 10.
        destruct (lv_remain v =? 0); lia. }
      cbn [seq] in Hn. rewrite fmap_cons, filter_accepted_cons in Hn.
      assert (Hi1 : lv_i v1 = (if accepted (chunk r0 k) then lv_i v - 1 else lv_i v)
                    ∧ length (lv_b v1) = length (lv_b v)).
      { destruct (accepted (chunk r0 k)); destruct Hres as [-> ->];
          [by rewrite length_insert|done]. }
      destruct Hi1 as [Hi1 Hlen1]. rewrite <- Hi1.
      destruct (IH (S k) v1 r1 Hs1) as (v' & r' & Hl & Hs' & Hzero & Hpos).
      { lia. }
      { rewrite Hi1, Hlen1. destruct (accepted (chunk r0 k)); lia. }
      { rewrite Hi1. destruct (accepted (chunk r0 k)); simpl in Hn; lia. }
      exists v', r'. rewrite loop_S.
      destruct (Z.leb_spec 0 (lv_i v)); [|lia].
      rewrite (bind_Ok _ _ _ _ _ Hb). split; [exact Hl|].
      rewrite Nat.add_succ_r. split; [exact Hs'|]. split; [discriminate|].
      intros _. destruct (examined _ (lv_i v1)) eqn:He.
      * destruct (Hzero eq_refl) as [-> _]. exact Hrem1'.
      * apply Hpos. lia.
    + exists v, r. rewrite loop_S. destruct (Z.leb_spec 0 (lv_i v)); [lia|].
      rewrite Nat.add_0_r. split_and!; try done. lia.
Qed.

(** X3. One draw serves ten values: a call that examines [e] 6-bit
    values before its buffer is full leaves the source [⌈e/10⌉] draws
    further, and one draw further when it examines none (a call for the
    empty string still takes the draw that opens the loop). *)
Theorem generator_takes_a_draw_per_ten_values n r m :
  0 ≤ n →
  n ≤ Z.of_nat (length (accepted_chunks r m)) →
  ∃ s r',
    RandStringBytesMaskImpr (S (examined (chunks r m) (n - 1))) n r = Ok s r' ∧
    rs_pos r' =
      (rs_pos r + Nat.max 1 ((examined (chunks r m) (n - 1) + 9) / 10))%nat ∧
    ∀ fuel' s' r'',
      RandStringBytesMaskImpr fuel' n r = Ok s' r'' → r'' = r'.
Proof.
  intros Hn Hm. unfold accepted_chunks, chunks in *.
  destruct (loop_examined r m 0 _ _
              (synced_start r (n - 1) (replicate (Z.to_nat n) zero)))
    as (v' & r' & Hl & Hs & Hzero & Hpos).
  { cbn [lv_remain]. change letterIdxMax with 10. lia. }
  { cbn [lv_i lv_b]. rewrite length_replicate. lia. }
  { cbn [lv_i]. lia. }
  cbn [lv_i] in *. set (e := examined _ _) in *.
  assert (Hrun : RandStringBytesMaskImpr (S e) n r =
                 Ok (string_of_list_ascii (lv_b v')) r').
  { unfold RandStringBytesMaskImpr. destruct (Z.ltb_spec n 0); [lia|].
    unfold mbind, M_bind. cbn [Int63]. rewrite Hl. reflexivity. }
  eexists _, r'. split; [exact Hrun|]. split.
  - destruct e as [|e'].
    + destruct (Hzero eq_refl) as [_ ->]. cbn [rs_pos]. simpl. lia.
    + assert (Hrem : lv_remain v' ≤ 9) by (apply Hpos; lia).
      destruct Hs as [_ [(H0 & Hmod & ->)|(H0 & Hremk & -> & _)]]; lia.
  - intros fuel' s' r'' Hrun'.
    exact (proj2 (RandStringBytesMaskImpr_deterministic _ _ _ _ _ _ _ _ Hrun' Hrun)).
Qed.

(** ** Upper-casing *)

Lemma upper_byte_letter c : is_letter c = true → is_upper (upper_byte c) = true.
Proof.
  destruct c as [[] [] [] [] [] [] [] []]; intros Hc;
    first [ vm_compute in Hc; discriminate Hc | vm_compute; reflexivity ].
Qed.

Lemma upper_byte_ascii c :
  is_ascii_byte c = true →
  is_ascii_byte (upper_byte c) = true ∧ is_lower (upper_byte c) = false ∧
  upper_byte (upper_byte c) = upper_byte c.
Proof.
  destruct c as [[] [] [] [] [] [] [] []]; intros Hc;
    first [ vm_compute in Hc; discriminate Hc | vm_compute; done ].
Qed.

Lemma string_map_upper_letters s :
  string_forallb is_letter s = true →
  string_forallb is_upper (string_map upper_byte s) = true.
Proof.
  induction s as [|c s IH]; simpl; [done|].
  intros Hcs. apply andb_prop in Hcs as [Hc Hs].
  by rewrite (upper_byte_letter _ Hc), IH.
Qed.

Lemma string_map_upper_ascii s :
  string_forallb is_ascii_byte s = true →
  string_forallb is_ascii_byte (string_map upper_byte s) = true ∧
  string_existsb is_lower (string_map upper_byte s) = false ∧
  string_map upper_byte (string_map upper_byte s) = string_map upper_byte s.
Proof.
  induction s as [|c s IH]; simpl; [done|].
  intros Hcs. apply andb_prop in Hcs as [Hc Hs].
  destruct (upper_byte_ascii c Hc) as (-> & -> & ->).
  destruct (IH Hs) as (-> & -> & ->). done.
Qed.

(** On a pure-ASCII string [ToUpper] keeps the length, leaves no
    lower-case letter, and changes nothing when applied again. *)
Lemma ToUpper_ascii_idempotent `{!GoLib} s :
  string_forallb is_ascii_byte s = true →
  len (ToUpper s) = len s ∧
  string_existsb is_lower (ToUpper s) = false ∧
  ToUpper (ToUpper s) = ToUpper s.
Proof.
  intros Hs. destruct (string_map_upper_ascii s Hs) as (Ha & Hl & Hi).
  rewrite (ToUpper_ascii s Hs). split; [|split].
  - unfold len. by rewrite string_map_length.
  - exact Hl.
  - rewrite (ToUpper_ascii _ Ha). exact Hi.
Qed.

(** A generated token, upper-cased, is made of upper-case letters and has
    the length of the token. *)
Lemma ToUpper_token `{!GoLib} fuel n r t r' :
  RandStringBytesMaskImpr fuel n r = Ok t r' →
  len (ToUpper t) = n ∧ string_forallb is_upper (ToUpper t) = true.
Proof.
  intros Hrun.
  destruct (RandStringBytesMaskImpr_partial _ _ _ _ _ Hrun) as (_ & Hlen & Hletters).
  rewrite (ToUpper_ascii t (letters_ascii t Hletters)). split.
  - unfold len in *. by rewrite string_map_length.
  - by apply string_map_upper_letters.
Qed.

(** ** The callbacks: deliveries, failures, and how they compose *)

Section MoreCallbacks.
Context `{!GoLib} {S : Type} `{!ConfirmStorer S}.

Implicit Types (c : Config) (w : World S) (u : gmap string Value).

Local Arguments ToUpper : simpl never.
Local Arguments RandStringBytesMaskImpr : simpl never.
Local Arguments String.append : simpl never.

Lemma confirmEmail_eq c to token w :
  confirmEmail c to token w =
  Ok tt match Mailer c (confirm_job c to token) with
        | Some e => record_log "confirm: Failed to send e-mail: %v" e
                      (record_mail (confirm_job c to token) w)
        | None => record_mail (confirm_job c to token) w
        end.
Proof.
  unfold confirmEmail, response_Email, mbind, M_bind. fold (confirm_job c to token).
  by destruct (Mailer c (confirm_job c to token)).
Qed.

Lemma afterRegister_cases fuel c w u token rs' :
  ctxUser w = Some u →
  RandStringBytesMaskImpr fuel TokenLength (randSrc w) = Ok token rs' →
  afterRegister fuel c w =
  let u' := tokened (ToUpper token) u in
  let w1 := set_ctxUser (Some u') (set_randSrc rs' w) in
  match StringErr (Some u') (PrimaryID c) with
  | inl e => Err e w1
  | inr key =>
      match Put key u' (ctxStorer w) with
      | inl e => Err e (record_call (CallPut key u') w1)
      | inr s' =>
          match StringErr (Some u') StoreEmail with
          | inl e => Err e (set_storer s' (record_call (CallPut key u') w1))
          | inr email =>
              goConfirmEmail c email token
                (set_storer s' (record_call (CallPut key u') w1))
          end
      end
  end.
Proof.
  intros Hu Hgen. rewrite (afterRegister_run _ _ _ _ Hu), Hgen. cbv zeta.
  set (w1 := set_ctxUser _ _).
  assert (Hu1 : ctxUser w1 = Some (tokened (ToUpper token) u)) by done.
  unfold mbind at 1. unfold M_bind at 1. rewrite (SaveUser_run _ _ _ Hu1).
  destruct (StringErr _ (PrimaryID c)) as [e|key]; [done|].
  change (ctxStorer w1) with (ctxStorer w).
  destruct (Put key _ (ctxStorer w)) as [e|s']; [done|].
  unfold mbind at 1. unfold M_bind at 1. unfold User_StringErr.
  change (ctxUser (set_storer s' (record_call _ w1)))
    with (Some (tokened (ToUpper token) u)).
  by destruct (StringErr _ StoreEmail).
Qed.

(** X4. The hook dispatches a delivery exactly when it returns no error:
    a run that returns no error has handed over one mail job (with a mail
    maker) or queued one goroutine (without), addressed to the account's
    e-mail address and carrying the token as generated, not upper-cased; a
    run that returns an error has handed over no job, queued no goroutine
    and written nothing to the log.  The hook never panics. *)
Theorem afterRegister_delivers_exactly_when_it_succeeds fuel c w :
  match afterRegister fuel c w with
  | Ok _ w' =>
      ∃ u token rs' email,
        ctxUser w = Some u ∧
        RandStringBytesMaskImpr fuel TokenLength (randSrc w) = Ok token rs' ∧
        StringErr (Some u) StoreEmail = inr email ∧
        if MailMaker_set c
        then Mails w' = Mails w ++ [confirm_job c email token] ∧
             To (mj_email (confirm_job c email token)) = [email] ∧
             Goroutines w' = Goroutines w
        else Mails w' = Mails w ∧
             Goroutines w' = Goroutines w ++ [(email, token)]
  | Err _ w' =>
      Mails w' = Mails w ∧ Goroutines w' = Goroutines w ∧
      LogWriter w' = LogWriter w
  | Panic => False
  | OutOfFuel => True
  end.
Proof.
  destruct (ctxUser w) as [u|] eqn:Hu; [|unfold afterRegister; by rewrite Hu].
  destruct (RandStringBytesMaskImpr_outcome fuel TokenLength (randSrc w))
    as [(token & rs' & Hgen)|Hgen]; [done| |].
  2: { rewrite (afterRegister_run _ _ _ _ Hu), Hgen. done. }
  rewrite (afterRegister_cases _ _ _ _ _ _ Hu Hgen). cbv zeta.
  destruct (StringErr _ (PrimaryID c)) as [e|key]; [done|].
  destruct (Put key _ _) as [e|s']; [done|].
  destruct (StringErr _ StoreEmail) as [e|email] eqn:Hemail; [done|].
  assert (Hemail' : StringErr (Some u) StoreEmail = inr email).
  { revert Hemail. unfold StringErr, tokened. simpl.
    by rewrite lookup_insert_ne. }
  unfold goConfirmEmail. destruct (MailMaker_set c).
  - rewrite confirmEmail_eq. exists u, token, rs', email.
    split; [done|]. split; [done|]. split; [done|].
    by destruct (Mailer c _).
  - exists u, token, rs', email. done.
Qed.

(** X5. What the hook stores: after a run that returns no error the
    account in context holds, as its confirm token, the generated token
    upper-cased, a string of six upper-case letters; the storer was written
    to once, with this account under its identity key, and is left as that
    write left it. *)
Theorem afterRegister_stores_six_uppercase_letters fuel c w u w' :
  ctxUser w = Some u →
  afterRegister fuel c w = Ok tt w' →
  ∃ token rs' key,
    RandStringBytesMaskImpr fuel TokenLength (randSrc w) = Ok token rs' ∧
    ctxUser w' = Some (tokened (ToUpper token) u) ∧
    tokened (ToUpper token) u !! StoreConfirmToken = Some (VString (ToUpper token)) ∧
    len (ToUpper token) = 6 ∧
    string_forallb is_upper (ToUpper token) = true ∧
    StringErr (Some (tokened (ToUpper token) u)) (PrimaryID c) = inr key ∧
    StorerCalls w' = StorerCalls w ++ [CallPut key (tokened (ToUpper token) u)] ∧
    Put key (tokened (ToUpper token) u) (ctxStorer w) = inr (ctxStorer w').
Proof.
  intros Hu Hrun.
  destruct (RandStringBytesMaskImpr_outcome fuel TokenLength (randSrc w))
    as [(token & rs' & Hgen)|Hgen]; [done| |].
  2: { rewrite (afterRegister_run _ _ _ _ Hu), Hgen in Hrun. done. }
  destruct (ToUpper_token _ _ _ _ _ Hgen) as [Hlen Hup].
  revert Hrun. rewrite (afterRegister_cases _ _ _ _ _ _ Hu Hgen). cbv zeta.
  destruct (StringErr _ (PrimaryID c)) as [e|key] eqn:Hkey; [done|].
  destruct (Put key _ _) as [e|s'] eqn:Hput; [done|].
  destruct (StringErr _ StoreEmail) as [e|email]; [done|].
  intros Hrun. exists token, rs', key.
  split; [done|].
  assert (Hw' : ctxUser w' = Some (tokened (ToUpper token) u) ∧
                StorerCalls w' = StorerCalls w ++
                  [CallPut key (tokened (ToUpper token) u)] ∧
                ctxStorer w' = s').
  { revert Hrun. unfold goConfirmEmail. destruct (MailMaker_set c).
    - rewrite confirmEmail_eq. intros [= <-]. by destruct (Mailer c _).
    - by intros [= <-]. }
  destruct Hw' as (Hu' & Hcalls & ->).
  split; [done|]. split; [apply lookup_insert_eq|].
  split; [done|]. split; [done|]. done.
Qed.

(** X6. How the hook fails.  A run that returns an error either found no
    account in context (the error is [errUserMissing] and nothing
    changed), or it had drawn the token and stored it in the account in
    context, and then: could not read the identity key (the storer was not
    called); or the storer refused the write (its error is returned
    unchanged and the storer is as it was); or the write succeeded and the
    e-mail address could not be read, so the token is persisted although
    the hook failed. *)
Theorem afterRegister_failure_modes fuel c w e w' :
  afterRegister fuel c w = Err e w' →
  (ctxUser w = None ∧ e = errUserMissing ∧ w' = w) ∨
  ∃ u token rs',
    ctxUser w = Some u ∧
    RandStringBytesMaskImpr fuel TokenLength (randSrc w) = Ok token rs' ∧
    ctxUser w' = Some (tokened (ToUpper token) u) ∧
    ((StringErr (Some (tokened (ToUpper token) u)) (PrimaryID c) = inl e ∧
      StorerCalls w' = StorerCalls w ∧ ctxStorer w' = ctxStorer w) ∨
     (∃ key,
        Put key (tokened (ToUpper token) u) (ctxStorer w) = inl e ∧
        StorerCalls w' = StorerCalls w ++ [CallPut key (tokened (ToUpper token) u)] ∧
        ctxStorer w' = ctxStorer w) ∨
     (∃ key s',
        Put key (tokened (ToUpper token) u) (ctxStorer w) = inr s' ∧
        ctxStorer w' = s' ∧
        StringErr (Some (tokened (ToUpper token) u)) StoreEmail = inl e)).
Proof.
  destruct (ctxUser w) as [u|] eqn:Hu.
  2: { unfold afterRegister. rewrite Hu. intros [= <- <-]. by left. }
  destruct (RandStringBytesMaskImpr_outcome fuel TokenLength (randSrc w))
    as [(token & rs' & Hgen)|Hgen]; [done| |].
  2: { rewrite (afterRegister_run _ _ _ _ Hu), Hgen. done. }
  rewrite (afterRegister_cases _ _ _ _ _ _ Hu Hgen). cbv zeta.
  intros Hrun. right. exists u, token, rs'. split; [done|]. split; [done|].
  revert Hrun.
  destruct (StringErr _ (PrimaryID c)) as [e1|key] eqn:Hkey.
  { intros [= <- <-]. split; [done|]. by left. }
  destruct (Put key _ _) as [e1|s'] eqn:Hput.
  { intros [= <- <-]. split; [done|]. right. left. by exists key. }
  destruct (StringErr _ StoreEmail) as [e1|email] eqn:Hemail.
  { intros [= <- <-]. split; [done|]. right. right. by exists key, s'. }
  unfold goConfirmEmail. destruct (MailMaker_set c); [|done].
  rewrite confirmEmail_eq. done.
Qed.

(** X7. Leaving the delivery to a goroutine changes when it happens, not
    what happens: when no goroutine is queued, the hook run without a mail
    maker, followed by the run of the goroutine it queued, ends as the
    hook run with a mail maker. *)
Theorem goroutine_delivery_ends_as_direct_delivery fuel c w w1 :
  Goroutines w = [] →
  afterRegister fuel (with_MailMaker false c) w = Ok tt w1 →
  run_goroutine (with_MailMaker false c) w1 =
  afterRegister fuel (with_MailMaker true c) w.
Proof.
  intros Hg Hrun.
  destruct (ctxUser w) as [u|] eqn:Hu;
    [|unfold afterRegister in Hrun; by rewrite Hu in Hrun].
  destruct (RandStringBytesMaskImpr_outcome fuel TokenLength (randSrc w))
    as [(token & rs' & Hgen)|Hgen]; [done| |].
  2: { rewrite (afterRegister_run _ _ _ _ Hu), Hgen in Hrun. done. }
  revert Hrun. rewrite !(afterRegister_cases _ _ _ _ _ _ Hu Hgen). cbv zeta.
  cbn [with_MailMaker PrimaryID].
  destruct (StringErr _ (PrimaryID c)) as [e|key]; [done|].
  destruct (Put key _ _) as [e|s']; [done|].
  destruct (StringErr _ StoreEmail) as [e|email]; [done|].
  unfold goConfirmEmail. cbn [with_MailMaker MailMaker_set].
  intros [= <-]. unfold run_goroutine. cbn [Goroutines set_goroutines set_storer
    record_call set_ctxUser set_randSrc]. rewrite Hg. cbn [app].
  rewrite !confirmEmail_eq. f_equal.
  destruct w as [cu cs calls sess lg rd ml gr rnd]. cbn in Hg. subst gr.
  reflexivity.
Qed.

(** *** The confirmation handler *)

(** X8. A confirmation that fails changes nothing outside the request: the
    storer is as it was, no redirect is written and nothing is put in the
    session.  The error is the client-data error (empty token, nothing
    done at all), the redirect to the site root (token not found), the
    storer's own error (any other failure of the lookup, returned
    unchanged), or, once an account was found and marked confirmed in the
    context, the error of reading its identity key or of the storer's
    write. *)
Theorem confirmHandler_failure_leaves_the_storer_alone c r w e w' :
  confirmHandler c r w = Err e w' →
  ctxStorer w' = ctxStorer w ∧ Redirects w' = Redirects w ∧
  SessionPuts w' = SessionPuts w ∧
  ((FormValue r FormValueConfirm = "" ∧ e = ClientDataErr FormValueConfirm ∧ w' = w) ∨
   (FormValue r FormValueConfirm ≠ "" ∧
    ((ConfirmUser (ToUpper (FormValue r FormValueConfirm)) (ctxStorer w)
        = inl ErrUserNotFound ∧
      e = ErrAndRedirect "/" "confirm: token not found" ∧ ctxUser w' = ctxUser w) ∨
     (ConfirmUser (ToUpper (FormValue r FormValueConfirm)) (ctxStorer w) = inl e ∧
      e ≠ ErrUserNotFound ∧ ctxUser w' = ctxUser w) ∨
     (∃ user,
        ConfirmUser (ToUpper (FormValue r FormValueConfirm)) (ctxStorer w)
          = inr user ∧
        ctxUser w' = Some (redeemed user) ∧
        (StringErr (Some (redeemed user)) (PrimaryID c) = inl e ∨
         ∃ key, Put key (redeemed user) (ctxStorer w) = inl e))))).
Proof.
  destruct (decide (FormValue r FormValueConfirm = "")) as [Hempty|Htok].
  { unfold confirmHandler. rewrite Hempty. intros [= <- <-].
    split_and!; try done. by left. }
  destruct (ConfirmUser (ToUpper (FormValue r FormValueConfirm)) (ctxStorer w))
    as [err|user] eqn:Hfound.
  - unfold confirmHandler.
    destruct (len (FormValue r FormValueConfirm) =? 0) eqn:E;
      [by apply len_eq_0 in E|].
    unfold mbind at 1. unfold M_bind at 1. unfold Storer_ConfirmUser at 1.
    rewrite Hfound. destruct (decide (err = ErrUserNotFound)) as [->|Hne];
      intros [= <- <-]; (split_and!; try done); right; (split; [done|]).
    + by left.
    + right. by left.
  - rewrite (confirmHandler_found _ _ _ _ Htok Hfound). cbv zeta.
    destruct (StringErr _ _) as [e1|key] eqn:Hkey.
    { intros [= <- <-]. split_and!; try done. right. split; [done|].
      right. right. exists user. split_and!; try done. by left. }
    destruct (Put key _ _) as [e1|s'] eqn:Hput; [|done].
    intros [= <- <-]. split_and!; try done. right. split; [done|].
    right. right. exists user. split_and!; try done. right. by exists key.
Qed.

(** X9. The handler logs the user in only when the configuration allows
    it, and only after the account was written: a confirmation that
    returns no error has put the account's identity key in the session
    under the session key when [AllowInsecureLoginAfterConfirm] is set, and
    has put nothing in the session otherwise. *)
Theorem confirmHandler_logs_in_only_when_allowed c r w w' :
  confirmHandler c r w = Ok tt w' →
  ∃ user key,
    ConfirmUser (ToUpper (FormValue r FormValueConfirm)) (ctxStorer w) = inr user ∧
    StringErr (Some (redeemed user)) (PrimaryID c) = inr key ∧
    Put key (redeemed user) (ctxStorer w) = inr (ctxStorer w') ∧
    SessionPuts w' =
      SessionPuts w ++
      (if AllowInsecureLoginAfterConfirm c then [(SessionKey, key)] else []).
Proof.
  intros Hrun.
  destruct (confirmHandler_Ok_inv _ _ _ _ Hrun)
    as (Htok & user & key & Hfound & Hkey & Hput).
  exists user, key. split; [done|]. split; [done|]. split; [done|].
  revert Hrun. rewrite (confirmHandler_found _ _ _ _ Htok Hfound). cbv zeta.
  rewrite Hkey. destruct (Put key _ _) as [e|s']; [done|].
  intros [= <-]. destruct (AllowInsecureLoginAfterConfirm c); [done|].
  cbn. by rewrite app_nil_r.
Qed.

(** X10. The handler changes two fields of the account it found and no
    other: however the run ends once the storer answered with an account,
    the account in context is the one found with [confirmToken] empty and
    [confirmed] true, and every other field, the e-mail address among them,
    reads as the storer gave it. *)
Theorem confirmHandler_writes_two_fields c r w user w' :
  FormValue r FormValueConfirm ≠ "" →
  ConfirmUser (ToUpper (FormValue r FormValueConfirm)) (ctxStorer w) = inr user →
  world_of (confirmHandler c r w) = Some w' →
  ∃ u', ctxUser w' = Some u' ∧
        u' !! StoreConfirmToken = Some (VString "") ∧
        u' !! StoreConfirmed = Some (VBool true) ∧
        u' !! StoreEmail = user !! StoreEmail ∧
        ∀ k, k ≠ StoreConfirmToken → k ≠ StoreConfirmed → u' !! k = user !! k.
Proof.
  intros Htok Hfound Hw'. exists (redeemed user).
  split; [exact (confirmHandler_user _ _ _ _ _ Htok Hfound Hw')|].
  unfold redeemed. split; [by rewrite lookup_insert_ne, lookup_insert_eq|].
  split; [apply lookup_insert_eq|].
  split; [by rewrite !lookup_insert_ne|].
  intros k Hk1 Hk2. by rewrite !lookup_insert_ne.
Qed.

(** *** The gate after the callbacks *)

(** X11. The hook does not change what the gate says of the account in
    context: however the hook ends, the gate answers after it as it did
    before it. *)
Theorem afterRegister_keeps_the_gate_verdict fuel c w u w' :
  ctxUser w = Some u →
  world_of (afterRegister fuel c w) = Some w' →
  beforeGet w' = beforeGet w.
Proof.
  intros Hu Hw'.
  destruct (afterRegister_user _ _ _ _ _ Hu Hw') as (token & rs' & _ & Hu').
  unfold beforeGet, BoolErr. rewrite Hu, Hu'. simpl.
  unfold tokened. by rewrite lookup_insert_ne.
Qed.

(** X12. Once the handler has found an account, the gate lets the account
    in context pass, with no interrupt and no error, whether or not the
    write to the storer succeeded; the callback on a loaded user returns no
    error either. *)
Theorem gate_passes_after_confirmation c r w user w' :
  FormValue r FormValueConfirm ≠ "" →
  ConfirmUser (ToUpper (FormValue r FormValueConfirm)) (ctxStorer w) = inr user →
  world_of (confirmHandler c r w) = Some w' →
  beforeGet w' = (InterruptNone, None) ∧ afterGetUser w' = None.
Proof.
  intros Htok Hfound Hw'.
  pose proof (confirmHandler_user _ _ _ _ _ Htok Hfound Hw') as Hu'.
  assert (Hgate : beforeGet w' = (InterruptNone, None)).
  { unfold beforeGet, BoolErr. rewrite Hu'. simpl.
    unfold redeemed. by rewrite lookup_insert_eq. }
  split; [exact Hgate|]. unfold afterGetUser. by rewrite Hgate.
Qed.

(** X13. The callback on a loaded user drops the interrupt: it returns an
    error exactly when the [confirmed] field does not read as a boolean,
    so for an account that is not confirmed, where the gate answers with
    the account-not-confirmed interrupt, it returns no error. *)
Theorem afterGetUser_drops_the_interrupt w :
  (afterGetUser w = None ↔
   ∃ b, ctxUser w ≫= (.!! StoreConfirmed) = Some (VBool b)) ∧
  ((beforeGet w).1 = InterruptAccountNotConfirmed → afterGetUser w = None) ∧
  (ctxUser w = None →
   afterGetUser w = Some (AttributeErr StoreConfirmed TBool None)).
Proof.
  unfold afterGetUser, beforeGet, BoolErr.
  destruct (ctxUser w) as [u|]; simpl.
  - destruct (u !! StoreConfirmed) as [[n|s|[]|t]|]; simpl;
      (split_and!; [split; [try discriminate; by eexists
                           |intros [b Hb]; try discriminate; done]
                   |try discriminate; done|discriminate]).
  - split_and!; [split; [discriminate|by intros [b Hb]]|discriminate|done].
Qed.

(** X14. The handler reads its token upper-cased: for a pure-ASCII token,
    a request that carries the token and a request that carries the token
    upper-cased are served alike, with the same result and the same world. *)
Theorem confirmHandler_serves_the_upper_cased_token_alike c r r' w :
  string_forallb is_ascii_byte (FormValue r FormValueConfirm) = true →
  FormValue r' FormValueConfirm = ToUpper (FormValue r FormValueConfirm) →
  confirmHandler c r' w = confirmHandler c r w.
Proof.
  intros Hascii Hr'.
  destruct (ToUpper_ascii_idempotent _ Hascii) as (Hlen & _ & Hidem).
  unfold confirmHandler. rewrite Hr', Hlen, Hidem. reflexivity.
Qed.
End MoreCallbacks.

(** ** Storage requirements and initialization *)

Lemma Storage_lookup c k d :
  PrimaryID c ≠ StoreConfirmed →
  Storage c !! k = Some d →
  (k = StoreConfirmed ∧ d = TBool) ∨
  (k ≠ StoreConfirmed ∧ d = TString ∧
   (k = StoreConfirmToken ∨ k = StoreEmail ∨ k = PrimaryID c)).
Proof.
  intros Hid. unfold Storage.
  destruct (decide (k = StoreConfirmed)) as [->|Hk1].
  { rewrite lookup_insert_eq. intros [= <-]. by left. }
  rewrite lookup_insert_ne by done.
  destruct (decide (k = StoreConfirmToken)) as [->|Hk2].
  { rewrite lookup_insert_eq. intros [= <-]. right. auto. }
  rewrite lookup_insert_ne by done.
  destruct (decide (k = StoreEmail)) as [->|Hk3].
  { rewrite lookup_insert_eq. intros [= <-]. right. auto. }
  rewrite lookup_insert_ne by done.
  destruct (decide (k = PrimaryID c)) as [->|Hk4].
  { rewrite lookup_insert_eq. intros [= <-]. right. auto. }
  rewrite lookup_insert_ne by done. by rewrite lookup_empty.
Qed.

Lemma Storage_declares c :
  PrimaryID c ≠ StoreConfirmed →
  Storage c !! StoreConfirmed = Some TBool ∧
  Storage c !! StoreConfirmToken = Some TString ∧
  Storage c !! StoreEmail = Some TString ∧
  Storage c !! PrimaryID c = Some TString.
Proof.
  intros Hid. unfold Storage. split_and!.
  - apply lookup_insert_eq.
  - rewrite lookup_insert_ne by done. apply lookup_insert_eq.
  - rewrite !lookup_insert_ne by done. apply lookup_insert_eq.
  - rewrite lookup_insert_ne by done.
    destruct (decide (StoreConfirmToken = PrimaryID c)) as [<-|H1];
      [apply lookup_insert_eq|rewrite lookup_insert_ne by done].
    destruct (decide (StoreEmail = PrimaryID c)) as [<-|H2];
      [apply lookup_insert_eq|rewrite lookup_insert_ne by done].
    apply lookup_insert_eq.
Qed.

Section Schema.
Context `{!GoLib} {S : Type} `{!ConfirmStorer S}.

Implicit Types (c : Config) (w : World S) (u : gmap string Value).

(** X15. The module uses the account as [Storage] declares it.  When the
    identity key is not the [confirmed] field: [Storage] names the identity
    key, the e-mail address and the confirm token as strings and
    [confirmed] as a boolean, and nothing else; on an account that holds
    values of the declared kinds, the reads of the gate, of the hook and of
    the handler fail on no field that is present; and the hook and the
    handler leave such an account holding values of the declared kinds. *)
Theorem callbacks_keep_to_the_storage_kinds c u :
  PrimaryID c ≠ StoreConfirmed →
  conforms c u →
  dom (Storage c) =
    ({[ PrimaryID c; StoreEmail; StoreConfirmToken; StoreConfirmed ]} : gset string) ∧
  (is_Some (u !! StoreConfirmed) → ∃ b, BoolErr (Some u) StoreConfirmed = inr b) ∧
  (is_Some (u !! StoreEmail) → ∃ s, StringErr (Some u) StoreEmail = inr s) ∧
  (is_Some (u !! PrimaryID c) → ∃ s, StringErr (Some u) (PrimaryID c) = inr s) ∧
  (∀ fuel w w',
     ctxUser w = Some u →
     world_of (afterRegister fuel c w) = Some w' →
     ∃ u', ctxUser w' = Some u' ∧ conforms c u') ∧
  (∀ r w w',
     FormValue r FormValueConfirm ≠ "" →
     ConfirmUser (ToUpper (FormValue r FormValueConfirm)) (ctxStorer w) = inr u →
     world_of (confirmHandler c r w) = Some w' →
     ∃ u', ctxUser w' = Some u' ∧ conforms c u').
Proof.
  intros Hid Hconf.
  destruct (Storage_declares c Hid) as (Hd1 & Hd2 & Hd3 & Hd4).
  split_and!.
  - unfold Storage. rewrite !dom_insert_L, dom_empty_L. apply set_eq. intros x.
    rewrite !elem_of_union, !elem_of_singleton, elem_of_empty. tauto.
  - intros [v Hv]. pose proof (Hconf _ _ _ Hd1 Hv) as Hk.
    unfold BoolErr. simpl. rewrite Hv. destruct v; try discriminate. by eexists.
  - intros [v Hv]. pose proof (Hconf _ _ _ Hd3 Hv) as Hk.
    unfold StringErr. simpl. rewrite Hv. destruct v; try discriminate. by eexists.
  - intros [v Hv]. pose proof (Hconf _ _ _ Hd4 Hv) as Hk.
    unfold StringErr. simpl. rewrite Hv. destruct v; try discriminate. by eexists.
  - intros fuel w w' Hu Hw'.
    destruct (afterRegister_user _ _ _ _ _ Hu Hw') as (token & rs' & _ & Hu').
    eexists. split; [exact Hu'|]. intros k d v Hk. unfold tokened.
    destruct (decide (k = StoreConfirmToken)) as [->|Hne].
    + rewrite lookup_insert_eq. intros [= <-]. cbn [kind_of]. congruence.
    + rewrite lookup_insert_ne by done. by apply Hconf.
  - intros r w w' Htok Hfound Hw'.
    eexists. split; [exact (confirmHandler_user _ _ _ _ _ Htok Hfound Hw')|].
    intros k d v Hk. unfold redeemed.
    destruct (decide (k = StoreConfirmed)) as [->|Hne1].
    { rewrite lookup_insert_eq. intros [= <-]. cbn [kind_of]. congruence. }
    rewrite lookup_insert_ne by done.
    destruct (decide (k = StoreConfirmToken)) as [->|Hne2].
    { rewrite lookup_insert_eq. intros [= <-]. cbn [kind_of]. congruence. }
    rewrite lookup_insert_ne by done. by apply Hconf.
Qed.
End Schema.

(** X16. [Initialize] registers all of its callbacks or none.  It returns
    no error exactly when a store maker is configured or the storer is a
    [ConfirmStorer], and both e-mail templates load; it has then
    registered, in this order, the callback on a loaded user, the gate
    before authentication and the hook after registration.  When it
    returns an error no callback is registered: without a usable storer it
    has not asked for a template; when the HTML template fails to load it
    has not asked for the text template. *)
Theorem Initialize_registers_all_callbacks_or_none su m :
  match Initialize su m with
  | Ok _ m' =>
      (su_StoreMaker su = true ∨ su_ConfirmStorer su = true) ∧
      su_LoadTemplates su tplConfirmHTML = None ∧
      su_LoadTemplates su tplConfirmText = None ∧
      Callbacks m' = Callbacks m ++
        [RegAfter EventGetUser CbAfterGetUser;
         RegBefore EventAuth CbBeforeGet;
         RegAfter EventRegister CbAfterRegister] ∧
      emailHTMLTemplates m' = Some tplConfirmHTML ∧
      emailTextTemplates m' = Some tplConfirmText ∧
      TemplateLoads m' = TemplateLoads m ++ [tplConfirmHTML; tplConfirmText]
  | Err e m' =>
      Callbacks m' = Callbacks m ∧
      ((su_StoreMaker su = false ∧ su_ConfirmStorer su = false ∧
        e = ErrExternal "confirm: Need a ConfirmStorer" ∧ m' = m) ∨
       (su_LoadTemplates su tplConfirmHTML = Some e ∧
        TemplateLoads m' = TemplateLoads m ++ [tplConfirmHTML]) ∨
       (su_LoadTemplates su tplConfirmHTML = None ∧
        su_LoadTemplates su tplConfirmText = Some e ∧
        TemplateLoads m' = TemplateLoads m ++ [tplConfirmHTML; tplConfirmText]))
  | Panic => False
  | OutOfFuel => False
  end.
Proof.
  assert (Hloads : ∀ P : Outcome Module unit → Prop,
    (∀ e, su_LoadTemplates su tplConfirmHTML = Some e →
       P (Err e {| emailHTMLTemplates := None;
                   emailTextTemplates := emailTextTemplates m;
                   TemplateLoads := TemplateLoads m ++ [tplConfirmHTML];
                   Callbacks := Callbacks m |})) →
    (∀ e, su_LoadTemplates su tplConfirmHTML = None →
       su_LoadTemplates su tplConfirmText = Some e →
       P (Err e {| emailHTMLTemplates := Some tplConfirmHTML;
                   emailTextTemplates := None;
                   TemplateLoads :=
                     (TemplateLoads m ++ [tplConfirmHTML]) ++ [tplConfirmText];
                   Callbacks := Callbacks m |})) →
    (su_LoadTemplates su tplConfirmHTML = None →
     su_LoadTemplates su tplConfirmText = None →
       P (Ok tt {| emailHTMLTemplates := Some tplConfirmHTML;
                   emailTextTemplates := Some tplConfirmText;
                   TemplateLoads :=
                     (TemplateLoads m ++ [tplConfirmHTML]) ++ [tplConfirmText];
                   Callbacks :=
                     ((Callbacks m ++ [RegAfter EventGetUser CbAfterGetUser])
                        ++ [RegBefore EventAuth CbBeforeGet])
                        ++ [RegAfter EventRegister CbAfterRegister] |})) →
    su_StoreMaker su = true ∨ su_ConfirmStorer su = true →
    P (Initialize su m)).
  { intros P H1 H2 H3 Hst. unfold Initialize.
    replace (negb (su_StoreMaker su) && negb (su_ConfirmStorer su))
      with false by (destruct Hst as [-> | ->]; [done|by rewrite andb_false_r]).
    unfold mbind, M_bind, LoadTemplates.
    destruct (su_LoadTemplates su tplConfirmHTML) as [e1|] eqn:Hhtml;
      cbn [set_emailHTMLTemplates throw emailHTMLTemplates emailTextTemplates
           TemplateLoads Callbacks]; [by apply H1|].
    destruct (su_LoadTemplates su tplConfirmText) as [e2|] eqn:Htext;
      cbn [set_emailTextTemplates throw register emailHTMLTemplates
           emailTextTemplates TemplateLoads Callbacks]; [by apply H2|by apply H3]. }
  destruct (su_StoreMaker su) eqn:Hmaker;
    [|destruct (su_ConfirmStorer su) eqn:Hstorer].
  3: { unfold Initialize. rewrite Hmaker, Hstorer. cbn [negb andb]. unfold throw.
       split; [done|]. left. done. }
  all: apply Hloads; [| | |auto];
    cbn [emailHTMLTemplates emailTextTemplates TemplateLoads Callbacks].
  all: try (intros e He; split; [done|]; right; left; done).
  all: try (intros e He1 He2; split; [done|]; right; right;
            split_and!; try done; by rewrite <- app_assoc).
  all: intros He1 He2; split_and!; try done; auto; by rewrite <- !app_assoc.
Qed.

(** * Runs of the rest of the module *)

#[local] Existing Instance plain_GoLib.

Lemma alice_conforms : conforms demo_cfg alice.
Proof.
  intros k d v Hk Hv.
  destruct (Storage_lookup demo_cfg k d) as [[-> ->]|(_ & -> & [->|[->| ->]])];
    [vm_compute; discriminate|exact Hk|..];
    vm_compute in Hv; try discriminate Hv; by injection Hv as <-.
Qed.

(** ** The generator *)

Lemma generator_loop_never_indexes_out_of_range_witness :
  RandStringBytesMaskImpr 20 (-1) (const_source 0) = Panic ∧
  ∃ s r', RandStringBytesMaskImpr 20 6 (const_source 0) = Ok s r' ∧
          len s = 6 ∧ (0 < rs_pos r')%nat.
Proof.
  destruct (generator_loop_never_indexes_out_of_range 20 (-1) (const_source 0))
    as (Hpanic & _).
  split; [apply Hpanic; lia|].
  assert (Hrun : ∃ s r', RandStringBytesMaskImpr 20 6 (const_source 0) = Ok s r')
    by (eexists _, _; vm_compute; reflexivity).
  destruct Hrun as (s & r' & Hrun). exists s, r'. split; [exact Hrun|].
  destruct (generator_loop_never_indexes_out_of_range 20 6 (const_source 0))
    as (_ & _ & Hok).
  destruct (Hok s r' Hrun) as (_ & Hlen & _ & Hpos).
  split; [exact Hlen|exact Hpos].
Defined.

Lemma generator_ignores_the_high_bits_witness :
  answer (RandStringBytesMaskImpr 20 6 (const_source (2 ^ 60 + 1))) =
  answer (RandStringBytesMaskImpr 20 6 (const_source 1)).
Proof.
  apply generator_ignores_the_high_bits.
  split; [reflexivity|]. intros k. reflexivity.
Defined.

Lemma generator_takes_a_draw_per_ten_values_witness :
  ∃ s r',
    RandStringBytesMaskImpr 13 12 (const_source 0) = Ok s r' ∧ rs_pos r' = 2%nat.
Proof.
  destruct (generator_takes_a_draw_per_ten_values 12 (const_source 0) 12)
    as (s & r' & Hrun & Hpos & _).
  - lia.
  - vm_compute. discriminate.
  - exists s, r'. split; [exact Hrun|exact Hpos].
Defined.

(** ** The registration hook *)

Lemma afterRegister_stores_six_uppercase_letters_witness :
  ∃ w' token,
    afterRegister 20 demo_cfg alice_created = Ok tt w' ∧
    ctxUser w' = Some (tokened (ToUpper token) alice) ∧
    len (ToUpper token) = 6 ∧
    string_forallb is_upper (ToUpper token) = true.
Proof.
  assert (Hrun : ∃ w', afterRegister 20 demo_cfg alice_created = Ok tt w')
    by (eexists; vm_compute; reflexivity).
  destruct Hrun as [w' Hrun].
  destruct (afterRegister_stores_six_uppercase_letters 20 demo_cfg alice_created
              alice w' eq_refl Hrun)
    as (token & _ & _ & _ & Hu & _ & Hlen & Hupper & _).
  exists w', token. split; [exact Hrun|]. split; [exact Hu|].
  split; [exact Hlen|exact Hupper].
Defined.

Lemma afterRegister_failure_modes_witness :
  ∃ w' token,
    afterRegister 20 demo_cfg
      (demo_world (Some alice) one_pending_write_fails (const_source 0))
    = Err (ErrExternal "disk full") w' ∧
    ctxUser w' = Some (tokened (ToUpper token) alice).
Proof.
  assert (Hrun : ∃ w', afterRegister 20 demo_cfg
                         (demo_world (Some alice) one_pending_write_fails
                            (const_source 0))
                       = Err (ErrExternal "disk full") w')
    by (eexists; vm_compute; reflexivity).
  destruct Hrun as [w' Hrun].
  destruct (afterRegister_failure_modes 20 demo_cfg _ _ w' Hrun)
    as [(Hnone & _)|(u & token & _ & Hu & _ & Hu' & _)].
  - discriminate Hnone.
  - injection Hu as <-. exists w', token. split; [exact Hrun|exact Hu'].
Defined.

Lemma goroutine_delivery_ends_as_direct_delivery_witness :
  ∃ w1,
    afterRegister 20 (with_MailMaker false demo_cfg) alice_created = Ok tt w1 ∧
    run_goroutine (with_MailMaker false demo_cfg) w1 =
    afterRegister 20 (with_MailMaker true demo_cfg) alice_created.
Proof.
  assert (Hrun : ∃ w1, afterRegister 20 (with_MailMaker false demo_cfg)
                         alice_created = Ok tt w1)
    by (eexists; vm_compute; reflexivity).
  destruct Hrun as [w1 Hrun]. exists w1. split; [exact Hrun|].
  exact (goroutine_delivery_ends_as_direct_delivery 20 demo_cfg alice_created w1
           eq_refl Hrun).
Defined.

Lemma afterRegister_keeps_the_gate_verdict_witness :
  ∃ w',
    world_of (afterRegister 20 demo_cfg alice_created) = Some w' ∧
    beforeGet w' = beforeGet alice_created.
Proof.
  assert (Hrun : ∃ w', world_of (afterRegister 20 demo_cfg alice_created) = Some w')
    by (eexists; vm_compute; reflexivity).
  destruct Hrun as [w' Hrun]. exists w'. split; [exact Hrun|].
  exact (afterRegister_keeps_the_gate_verdict 20 demo_cfg alice_created alice w'
           eq_refl Hrun).
Defined.

(** ** The confirmation handler *)

Lemma confirmHandler_failure_leaves_the_storer_alone_witness :
  ∃ w',
    confirmHandler demo_cfg (demo_request "zzzzzz") (request_world one_pending)
    = Err (ErrAndRedirect "/" "confirm: token not found") w' ∧
    ctxStorer w' = one_pending ∧ Redirects w' = [] ∧ SessionPuts w' = [].
Proof.
  assert (Hrun : ∃ w', confirmHandler demo_cfg (demo_request "zzzzzz")
                         (request_world one_pending)
                       = Err (ErrAndRedirect "/" "confirm: token not found") w')
    by (eexists; vm_compute; reflexivity).
  destruct Hrun as [w' Hrun].
  destruct (confirmHandler_failure_leaves_the_storer_alone demo_cfg _ _ _ w' Hrun)
    as (Hstorer & Hred & Hputs & _).
  exists w'. split; [exact Hrun|]. split; [exact Hstorer|].
  split; [exact Hred|exact Hputs].
Defined.

Lemma confirmHandler_logs_in_only_when_allowed_witness :
  ∃ w' user key,
    confirmHandler login_cfg (demo_request "aaaaaa") (request_world one_pending)
    = Ok tt w' ∧
    StringErr (Some (redeemed user)) "username" = inr key ∧
    SessionPuts w' = [(SessionKey, key)].
Proof.
  assert (Hrun : ∃ w', confirmHandler login_cfg (demo_request "aaaaaa")
                         (request_world one_pending) = Ok tt w')
    by (eexists; vm_compute; reflexivity).
  destruct Hrun as [w' Hrun].
  destruct (confirmHandler_logs_in_only_when_allowed login_cfg _ _ w' Hrun)
    as (user & key & _ & Hkey & _ & Hputs).
  exists w', user, key. split; [exact Hrun|]. split; [exact Hkey|exact Hputs].
Defined.

Lemma confirmHandler_writes_two_fields_witness :
  ∃ w' u',
    world_of (confirmHandler demo_cfg (demo_request "aaaaaa")
                (request_world one_pending_write_fails)) = Some w' ∧
    ctxUser w' = Some u' ∧
    u' !! StoreConfirmToken = Some (VString "") ∧
    u' !! StoreConfirmed = Some (VBool true) ∧
    u' !! StoreEmail = alice_pending !! StoreEmail.
Proof.
  assert (Hrun : ∃ w', world_of (confirmHandler demo_cfg (demo_request "aaaaaa")
                                   (request_world one_pending_write_fails))
                       = Some w')
    by (eexists; vm_compute; reflexivity).
  destruct Hrun as [w' Hrun].
  destruct (confirmHandler_writes_two_fields demo_cfg (demo_request "aaaaaa")
              (request_world one_pending_write_fails) alice_pending w')
    as (u' & Hu' & Htoken & Hconfirmed & Hemail & _).
  - vm_compute. discriminate.
  - vm_compute. reflexivity.
  - exact Hrun.
  - exists w', u'. split; [exact Hrun|]. split; [exact Hu'|].
    split; [exact Htoken|]. split; [exact Hconfirmed|exact Hemail].
Defined.

Lemma gate_passes_after_confirmation_witness :
  ∃ w',
    world_of (confirmHandler demo_cfg (demo_request "aaaaaa")
                (request_world one_pending_write_fails)) = Some w' ∧
    beforeGet w' = (InterruptNone, None) ∧ afterGetUser w' = None.
Proof.
  assert (Hrun : ∃ w', world_of (confirmHandler demo_cfg (demo_request "aaaaaa")
                                   (request_world one_pending_write_fails))
                       = Some w')
    by (eexists; vm_compute; reflexivity).
  destruct Hrun as [w' Hrun]. exists w'. split; [exact Hrun|].
  apply (gate_passes_after_confirmation demo_cfg (demo_request "aaaaaa")
           (request_world one_pending_write_fails) alice_pending w').
  - vm_compute. discriminate.
  - vm_compute. reflexivity.
  - exact Hrun.
Defined.

Lemma confirmHandler_serves_the_upper_cased_token_alike_witness :
  confirmHandler demo_cfg (demo_request "AAAAAA") (request_world one_pending) =
  confirmHandler demo_cfg (demo_request "aaaaaa") (request_world one_pending).
Proof.
  apply confirmHandler_serves_the_upper_cased_token_alike.
  - vm_compute. reflexivity.
  - vm_compute. reflexivity.
Defined.

(** ** The storage requirements *)

Lemma callbacks_keep_to_the_storage_kinds_witness :
  dom (Storage demo_cfg) =
    ({[ PrimaryID demo_cfg; StoreEmail; StoreConfirmToken; StoreConfirmed ]}
       : gset string) ∧
  (∃ b, BoolErr (Some alice) StoreConfirmed = inr b) ∧
  ∃ w' u',
    world_of (afterRegister 20 demo_cfg alice_created) = Some w' ∧
    ctxUser w' = Some u' ∧ conforms demo_cfg u'.
Proof.
  assert (Hid : PrimaryID demo_cfg ≠ StoreConfirmed) by (vm_compute; discriminate).
  destruct (callbacks_keep_to_the_storage_kinds demo_cfg alice Hid alice_conforms)
    as (Hdom & Hbool & _ & _ & Hhook & _).
  split; [exact Hdom|]. split.
  - apply Hbool. exists (VBool false). vm_compute. reflexivity.
  - assert (Hrun : ∃ w', world_of (afterRegister 20 demo_cfg alice_created)
                         = Some w')
      by (eexists; vm_compute; reflexivity).
    destruct Hrun as [w' Hrun].
    destruct (Hhook 20%nat alice_created w' eq_refl Hrun) as (u' & Hu' & Hconf).
    exists w', u'. split; [exact Hrun|]. split; [exact Hu'|exact Hconf].
Defined.
